(** * Rin markdown editor: formatting actions, uploads and the IME bridge

    A shallow embedding of [client/src/components/markdown_editor.tsx]
    (the [MarkdownEditor] React component) and of its earlier revision, in
    which every key binding carries its own copy of the action body.

    JavaScript strings are sequences of UTF-16 code units; a code unit is
    an [N].  Every string operation the component uses ([startsWith],
    [endsWith], [slice], [split], [join], [replace], [match], [length])
    works on code units, and so do the definitions below. *)

From Stdlib Require Import List NArith ZArith Bool Arith Lia.
From Stdlib Require Import Strings.Ascii.
From Stdlib Require Strings.String.
Import ListNotations String.StringSyntax.
Delimit Scope string_scope with string.

Set Implicit Arguments.
Set Warnings "-register-all".

(** ** JavaScript strings *)

Module JS.

Definition jsstring := list N.

(** A string literal of the source whose characters are all ASCII. *)
Definition lit (s : String.string) : jsstring :=
  map N_of_ascii (String.list_ascii_of_string s).

Arguments lit s%_string.

Fixpoint streq (a b : jsstring) : bool :=
  match a, b with
  | [], [] => true
  | x :: a', y :: b' => N.eqb x y && streq a' b'
  | _, _ => false
  end.

(** Truthiness of a string: only the empty string is falsy. *)
Definition truthy (s : jsstring) : bool :=
  match s with [] => false | _ :: _ => true end.

(** [a || b] on strings. *)
Definition orElse (a b : jsstring) : jsstring :=
  if truthy a then a else b.

(** [s.startsWith(p)] *)
Fixpoint startsWith (s p : jsstring) {struct p} : bool :=
  match p with
  | [] => true
  | y :: p' =>
      match s with
      | [] => false
      | x :: s' => N.eqb x y && startsWith s' p'
      end
  end.

(** [s.endsWith(p)]: the last [p.length] code units of [s] are [p]. *)
Definition endsWith (s p : jsstring) : bool :=
  (length p <=? length s) && streq (skipn (length s - length p) s) p.

(** [s.slice(start, end)]: a negative index counts from the end of the
    string, both indices are clamped to [0, s.length], and the result is
    empty when the start is not before the end. *)
Definition sliceIndex (len i : Z) : Z :=
  if (i <? 0)%Z then Z.max (len + i) 0 else Z.min i len.

Definition slice (s : jsstring) (start stop : Z) : jsstring :=
  let len := Z.of_nat (length s) in
  let from := sliceIndex len start in
  let to := sliceIndex len stop in
  let span := Z.max (to - from) 0 in
  firstn (Z.to_nat span) (skipn (Z.to_nat from) s).

(** [c.repeat(n)] for a one-character string. *)
Definition repeatChar (c : N) (n : nat) : jsstring := repeat c n.

(** [s.split(sep)] for a one-character separator: always at least one
    piece, the empty string splits into one empty piece. *)
Fixpoint split (sep : N) (s : jsstring) : list jsstring :=
  match s with
  | [] => [[]]
  | c :: s' =>
      if N.eqb c sep then [] :: split sep s'
      else match split sep s' with
           | [] => [[c]]
           | l :: ls => (c :: l) :: ls
           end
  end.

(** [pieces.join(sep)] for a one-character separator. *)
Fixpoint join (sep : N) (pieces : list jsstring) : jsstring :=
  match pieces with
  | [] => []
  | [p] => p
  | p :: ps => p ++ sep :: join sep ps
  end.

(** [xs.map((x, index) => f(index, x))] *)
Fixpoint mapiFrom {A B} (f : nat -> A -> B) (i : nat) (xs : list A) : list B :=
  match xs with
  | [] => []
  | x :: xs' => f i x :: mapiFrom f (S i) xs'
  end.

Definition mapi {A B} (f : nat -> A -> B) (xs : list A) : list B :=
  mapiFrom f 0 xs.

(** The decimal digits of a natural number, as a template string writes
    an integer index ([`${index + 1}`]). *)
Fixpoint digitsFuel (fuel n : nat) (acc : jsstring) : jsstring :=
  let acc' := (48 + N.of_nat (n mod 10))%N :: acc in
  match fuel with
  | O => acc'
  | S fuel' => if n / 10 =? 0 then acc' else digitsFuel fuel' (n / 10) acc'
  end.

Definition numberToString (n : nat) : jsstring := digitsFuel n n [].

Definition NL : N := 10.

End JS.
Import JS.

(** ** Regular expressions

    The fragment of ECMAScript regular expressions the component uses:
    literal characters, character classes, a quantifier (greedy or lazy,
    with bounds) over a one-character atom, the [^] assertion and a
    capture group.  Matching is the backtracking search of the language
    standard, written with a continuation for "the rest of the pattern". *)

Module Regex.

Inductive node :=
| Char (c : N)
| Class (p : N -> bool)
| Quant (p : N -> bool) (lo : nat) (hi : option nat) (greedy : bool)
| LineStart
| Capture (body : list node).

(** Character classes. *)
Definition isLineTerminator (c : N) : bool :=
  N.eqb c 10 || N.eqb c 13 || N.eqb c 8232 || N.eqb c 8233.

(** [.] *)
Definition dot (c : N) : bool := negb (isLineTerminator c).

(** [\s]: white space and line terminators. *)
Definition space (c : N) : bool :=
  (N.leb 9 c && N.leb c 13) || N.eqb c 32 || N.eqb c 160 || N.eqb c 5760
  || (N.leb 8192 c && N.leb c 8202) || N.eqb c 8232 || N.eqb c 8233
  || N.eqb c 8239 || N.eqb c 8287 || N.eqb c 12288 || N.eqb c 65279.

(** [\d] *)
Definition digit (c : N) : bool := N.leb 48 c && N.leb c 57.

(** A class of one character, as in [#+]. *)
Definition only (x : N) (c : N) : bool := N.eqb c x.

(** The outcome of a match attempt: what is left of the input after the
    match, and the text of capture group 1 if the group took part. *)
Definition result := (jsstring * option jsstring)%type.

Definition cont := option N -> jsstring -> option jsstring -> option result.

Definition hasRoom (hi : option nat) : bool :=
  match hi with Some O => false | _ => true end.

(** [prev] is the code unit just before the current position, [None] at
    the start of the input. *)
Fixpoint quant (p : N -> bool) (greedy : bool) (lo : nat) (hi : option nat)
    (prev : option N) (s : jsstring) (k : option N -> jsstring -> option result)
    {struct s} : option result :=
  let stop (_ : unit) := match lo with O => k prev s | S _ => None end in
  let more (_ : unit) :=
    match s with
    | c :: s' =>
        if p c && hasRoom hi
        then quant p greedy (pred lo) (option_map pred hi) (Some c) s' k
        else None
    | [] => None
    end in
  if greedy
  then match more tt with Some r => Some r | None => stop tt end
  else match stop tt with Some r => Some r | None => more tt end.

Definition atLineStart (multiline : bool) (prev : option N) : bool :=
  match prev with
  | None => true
  | Some c => multiline && isLineTerminator c
  end.

Fixpoint matchNode (multiline : bool) (n : node) (prev : option N)
    (s : jsstring) (cap : option jsstring) (k : cont) {struct n}
    : option result :=
  match n with
  | Char c =>
      match s with
      | x :: s' => if N.eqb x c then k (Some x) s' cap else None
      | [] => None
      end
  | Class p =>
      match s with
      | x :: s' => if p x then k (Some x) s' cap else None
      | [] => None
      end
  | Quant p lo hi greedy =>
      quant p greedy lo hi prev s (fun prev' s' => k prev' s' cap)
  | LineStart => if atLineStart multiline prev then k prev s cap else None
  | Capture body =>
      (fix matchSeq (b : list node) (prev0 : option N) (s0 : jsstring)
           (cap0 : option jsstring) (k0 : cont) {struct b} : option result :=
         match b with
         | [] => k0 prev0 s0 cap0
         | n' :: b' =>
             matchNode multiline n' prev0 s0 cap0
               (fun p1 s1 c1 => matchSeq b' p1 s1 c1 k0)
         end) body prev s cap
        (fun prev' s' _ =>
           k prev' s' (Some (firstn (length s - length s') s)))
  end.

Fixpoint matchSeq (multiline : bool) (b : list node) (prev : option N)
    (s : jsstring) (cap : option jsstring) (k : cont) : option result :=
  match b with
  | [] => k prev s cap
  | n :: b' =>
      matchNode multiline n prev s cap
        (fun p1 s1 c1 => matchSeq multiline b' p1 s1 c1 k)
  end.

Record regex := mkRegex {
  pattern : list node;
  global : bool;      (* flag g *)
  multiline : bool    (* flag m *)
}.

(** A match of the whole pattern starting at the current position: the
    number of code units it covers and capture group 1. *)
Definition matchHere (r : regex) (prev : option N) (s : jsstring)
    : option (nat * option jsstring) :=
  match matchSeq (multiline r) (pattern r) prev s None
          (fun _ s' cap => Some (s', cap)) with
  | Some (s', cap) => Some (length s - length s', cap)
  | None => None
  end.

(** The first match at or after the current position, as [s.match(r)]
    and the first step of [s.replace(r, ...)] find it: the text before
    the match, the matched text, capture group 1 and the text after. *)
Fixpoint search (r : regex) (prev : option N) (s : jsstring)
    : option (jsstring * jsstring * option jsstring * jsstring) :=
  match matchHere r prev s with
  | Some (n, cap) => Some ([], firstn n s, cap, skipn n s)
  | None =>
      match s with
      | [] => None
      | c :: s' =>
          match search r (Some c) s' with
          | Some (before, m, cap, after) => Some (c :: before, m, cap, after)
          | None => None
          end
      end
  end.

(** Replacement strings: literal text and the [$1] reference. *)
Inductive piece := Text (s : jsstring) | Group1.

Definition expand (tmpl : list piece) (cap : option jsstring) : jsstring :=
  concat (map (fun p => match p with
                        | Text s => s
                        | Group1 => match cap with Some c => c | None => [] end
                        end) tmpl).

(** [s.replace(r, tmpl)].  Matches are taken left to right and do not
    overlap; after an empty match the search resumes one code unit
    further on.  [skip] counts the code units of the current match that
    are still to be passed over, and [live] tells whether a further match
    may be replaced (always with flag g, only until the first match
    without it). *)
Fixpoint replaceFrom (r : regex) (tmpl : list piece) (live : bool)
    (skip : nat) (prev : option N) (s : jsstring) {struct s} : jsstring :=
  match skip with
  | S skip' =>
      match s with
      | [] => []
      | c :: s' => replaceFrom r tmpl live skip' (Some c) s'
      end
  | O =>
      match (if live then matchHere r prev s else None) with
      | Some (n, cap) =>
          expand tmpl cap ++
          match s with
          | [] => []
          | c :: s' =>
              match n with
              | O => c :: replaceFrom r tmpl (global r) 0 (Some c) s'
              | S n' => replaceFrom r tmpl (global r) n' (Some c) s'
              end
          end
      | None =>
          match s with
          | [] => []
          | c :: s' => c :: replaceFrom r tmpl live 0 (Some c) s'
          end
      end
  end.

Definition replace (r : regex) (tmpl : list piece) (s : jsstring) : jsstring :=
  replaceFrom r tmpl true 0 None s.

(** The code unit before the current position once the characters
    [run] have been consumed. *)
Definition lastBefore (prev : option N) (run : jsstring) : option N :=
  match rev run with
  | c :: _ => Some c
  | [] => prev
  end.

End Regex.

(** ** The Monaco editor, as far as the component talks to it

    The component reads the selection and the text model of the editor
    and sends it a handful of calls.  The text model is the document text
    with line feeds between lines; positions are 1-based line and column
    numbers, clamped to the text as Monaco validates them. *)

Module Monaco.

Record Range := mkRange {
  startLineNumber : nat;
  startColumn : nat;
  endLineNumber : nat;
  endColumn : nat
}.

Record Position := mkPosition {
  lineNumber : nat;
  column : nat
}.

Definition lines (model : jsstring) : list jsstring := split NL model.

(** [model.getLineContent(n)] *)
Definition getLineContent (model : jsstring) (n : nat) : jsstring :=
  nth (n - 1) (lines model) [].

(** [model.getLineLength(n)] *)
Definition getLineLength (model : jsstring) (n : nat) : nat :=
  length (getLineContent model n).

(** [model.getOffsetAt(position)] *)
Definition offsetAt (model : jsstring) (line col : nat) : nat :=
  let ls := lines model in
  let line' := Nat.min (Nat.max line 1) (length ls) in
  list_sum (map (fun l => S (length l)) (firstn (line' - 1) ls))
  + Nat.min (col - 1) (length (nth (line' - 1) ls [])).

(** [model.getValueInRange(range)] *)
Definition getValueInRange (model : jsstring) (r : Range) : jsstring :=
  let a := offsetAt model (startLineNumber r) (startColumn r) in
  let b := offsetAt model (endLineNumber r) (endColumn r) in
  firstn (b - a) (skipn a model).

(** The text after one edit operation [{range, text}]. *)
Definition applyEdit (model : jsstring) (r : Range) (text : jsstring)
    : jsstring :=
  let a := offsetAt model (startLineNumber r) (startColumn r) in
  let b := offsetAt model (endLineNumber r) (endColumn r) in
  firstn a model ++ text ++ skipn (Nat.max a b) model.

(** The calls the component makes on the editor instance. *)
Inductive call :=
| ExecuteEdits (source : option jsstring) (range : Range) (text : jsstring)
| SetSelection (r : Range)
| SetPosition (p : Position)
| Focus
| Trigger (handlerId : jsstring).

Record editor := mkEditor {
  model : option jsstring;        (* getModel(): the text, or null *)
  selection : option Range;       (* getSelection(): a range, or null *)
  undoStack : list jsstring;      (* earlier texts, most recent first *)
  focused : bool
}.

Definition getModel (ed : editor) : option jsstring := model ed.
Definition getSelection (ed : editor) : option Range := selection ed.

(** [editor.getValue()]: the empty string when no model is attached. *)
Definition getValue (ed : editor) : jsstring :=
  match model ed with Some m => m | None => [] end.

Section Perform.

(** Where Monaco leaves the selection after a call that changed the
    text is left open: the properties hold for every placement. *)
Variable cursorAfter : call -> editor -> option Range.

(** The effect of one call.  An edit replaces the range by the text and
    puts the previous text on the undo stack; the [undo] handler brings
    the most recent previous text back.  Without a model neither does
    anything. *)
Definition perform (c : call) (ed : editor) : editor :=
  match c with
  | ExecuteEdits _ r text =>
      match model ed with
      | Some m =>
          mkEditor (Some (applyEdit m r text)) (cursorAfter c ed)
                   (m :: undoStack ed) (focused ed)
      | None => ed
      end
  | SetSelection r => mkEditor (model ed) (Some r) (undoStack ed) (focused ed)
  | SetPosition p =>
      mkEditor (model ed)
               (Some (mkRange (lineNumber p) (column p)
                              (lineNumber p) (column p)))
               (undoStack ed) (focused ed)
  | Focus => mkEditor (model ed) (selection ed) (undoStack ed) true
  | Trigger handlerId =>
      if streq handlerId (lit "undo")
      then match model ed, undoStack ed with
           | Some _, prev :: older =>
               mkEditor (Some prev) (cursorAfter c ed) older (focused ed)
           | _, _ => ed
           end
      else ed
  end.

End Perform.

End Monaco.
Import Monaco.

(** ** The component state *)

Record File := mkFile {
  name : jsstring;
  size : N
}.

(** The success continuations handed to [uploadImage], one constructor
    per closure of the source with the variables it captures. *)
Inductive callback :=
| PasteInsert (myfile : File)                   (* handlePaste *)
| InsertAt (file : File) (selection : Range).   (* upChange and onDrop *)

(** The [showAlert] argument of [uploadImage]: every caller passes
    [(msg) => console.error(msg)]. *)
Inductive alerter := ConsoleError.

Record request := mkRequest {
  file : File;
  onSuccess : callback;
  showAlert : alerter
}.

Record world := mkWorld {
  editorRef : option editor;      (* editorRef.current *)
  isComposing : bool;             (* isComposingRef.current *)
  committed : list jsstring;      (* arguments of setContent, oldest first *)
  uploading : bool;               (* the uploading state *)
  uploadValue : jsstring;         (* uploadRef.current.value *)
  alerts : list jsstring;         (* window.alert messages *)
  console : list jsstring;        (* console.error arguments *)
  requests : list request;        (* POSTs sent to the storage endpoint *)
  defaultPrevented : bool         (* e.preventDefault() was called *)
}.

Definition withEditorRef (r : option editor) (w : world) : world :=
  mkWorld r (isComposing w) (committed w) (uploading w) (uploadValue w)
          (alerts w) (console w) (requests w) (defaultPrevented w).

Definition withComposing (b : bool) (w : world) : world :=
  mkWorld (editorRef w) b (committed w) (uploading w) (uploadValue w)
          (alerts w) (console w) (requests w) (defaultPrevented w).

Definition setContent (v : jsstring) (w : world) : world :=
  mkWorld (editorRef w) (isComposing w) (committed w ++ [v]) (uploading w)
          (uploadValue w) (alerts w) (console w) (requests w)
          (defaultPrevented w).

Definition setUploading (b : bool) (w : world) : world :=
  mkWorld (editorRef w) (isComposing w) (committed w) b (uploadValue w)
          (alerts w) (console w) (requests w) (defaultPrevented w).

Definition setUploadValue (v : jsstring) (w : world) : world :=
  mkWorld (editorRef w) (isComposing w) (committed w) (uploading w) v
          (alerts w) (console w) (requests w) (defaultPrevented w).

Definition alert (msg : jsstring) (w : world) : world :=
  mkWorld (editorRef w) (isComposing w) (committed w) (uploading w)
          (uploadValue w) (alerts w ++ [msg]) (console w) (requests w)
          (defaultPrevented w).

Definition consoleError (msg : jsstring) (w : world) : world :=
  mkWorld (editorRef w) (isComposing w) (committed w) (uploading w)
          (uploadValue w) (alerts w) (console w ++ [msg]) (requests w)
          (defaultPrevented w).

Definition post (r : request) (w : world) : world :=
  mkWorld (editorRef w) (isComposing w) (committed w) (uploading w)
          (uploadValue w) (alerts w) (console w) (requests w ++ [r])
          (defaultPrevented w).

Definition preventDefault (w : world) : world :=
  mkWorld (editorRef w) (isComposing w) (committed w) (uploading w)
          (uploadValue w) (alerts w) (console w) (requests w) true.

(** The document text as the editor holds it. *)
Definition documentText (w : world) : option jsstring :=
  match editorRef w with
  | Some ed => model ed
  | None => None
  end.

(** ** Patterns of the source *)

Module Patterns.
Import Regex.

Definition star : N := 42.
Definition tilde : N := 126.
Definition backtick : N := 96.
Definition hash : N := 35.

Definition lazyAny : node := Quant dot 0 None false.      (* .*? *)
Definition spaces : node := Quant space 0 None true.      (* \s* *)

(** [/\*\*(.*?)\*\*/g] *)
Definition boldRe : regex :=
  mkRegex [Char star; Char star; Capture [lazyAny]; Char star; Char star]
          true false.

(** [/\*(.*?)\*/g] *)
Definition italicRe : regex :=
  mkRegex [Char star; Capture [lazyAny]; Char star] true false.

(** [/~~(.*?)~~/g] *)
Definition strikeRe : regex :=
  mkRegex [Char tilde; Char tilde; Capture [lazyAny]; Char tilde; Char tilde]
          true false.

(** [/`(.*?)`/g] *)
Definition codeRe : regex :=
  mkRegex [Char backtick; Capture [lazyAny]; Char backtick] true false.

(** [/\[(.*?)\]\(.*?\)/g] *)
Definition linkRe : regex :=
  mkRegex [Char 91; Capture [lazyAny]; Char 93; Char 40; lazyAny; Char 41]
          true false.

(** [/^#+\s*/gm] *)
Definition headingMarkRe : regex :=
  mkRegex [LineStart; Quant (only hash) 1 None true; spaces] true true.

(** [/^>\s*/gm] *)
Definition quoteMarkRe : regex :=
  mkRegex [LineStart; Char 62; spaces] true true.

(** [/^[*-]\s*/gm] *)
Definition bulletMarkRe : regex :=
  mkRegex [LineStart; Class (fun c => N.eqb c star || N.eqb c 45); spaces]
          true true.

(** [/^\d+\.\s*/gm] *)
Definition numberMarkRe : regex :=
  mkRegex [LineStart; Quant digit 1 None true; Char 46; spaces] true true.

(** [/^(#{1,6})\s/] *)
Definition headingRegex : regex :=
  mkRegex [LineStart; Capture [Quant (only hash) 1 (Some 6) true]; Class space]
          false false.

(** [/^ {1,4}/] *)
Definition indentRe : regex :=
  mkRegex [LineStart; Quant (only 32) 1 (Some 4) true] false false.

End Patterns.

(** ** The component *)

Section MarkdownEditor.
Import Regex Patterns.

(** [t]: the translation lookup of [useTranslation()]. *)
Variable t : jsstring -> jsstring.

(** Monaco's placement of the selection after an edit or an undo. *)
Variable cursorAfter : call -> editor -> option Range.

(** One call on the editor behind [editorRef.current]. *)
Definition editorDo (c : call) (w : world) : world :=
  match editorRef w with
  | Some ed => withEditorRef (Some (perform cursorAfter c ed)) w
  | None => w
  end.

Definition editorDoAll (cs : list call) (w : world) : world :=
  fold_left (fun w' c => editorDo c w') cs w.

Definition sp : N := 32.

(** [lines.map(line => prefix + line).join('\n')] over
    [selectedText.split('\n')]. *)
Definition prefixEachLine (prefix : jsstring) (selectedText : jsstring)
    : jsstring :=
  join NL (map (fun line => prefix ++ line) (split NL selectedText)).

(** [handleHeadingAction(level, selection, model, selectedText)] *)
Definition handleHeadingAction (ref : option editor) (level : nat)
    (selection : Range) (model : jsstring) (selectedText : jsstring)
    : list call :=
  match ref with
  | None => []
  | Some _ =>
      let hashes := repeatChar hash level in
      let line := getLineContent model (startLineNumber selection) in
      let matched := search headingRegex None line in
      let newText :=
        match matched with
        | Some (_, _, group1, _) =>
            if length (match group1 with Some g => g | None => [] end)
               =? level
            then replace headingRegex [] line
            else replace headingRegex [Text (hashes ++ [sp])] line
        | None =>
            if truthy selectedText
            then hashes ++ [sp] ++ selectedText
            else hashes ++ [sp]
        end in
      let source := Some (lit "heading-" ++ numberToString level) in
      if negb (truthy selectedText)
      then
        let lineRange :=
          mkRange (startLineNumber selection) 1 (startLineNumber selection)
                  (getLineLength model (startLineNumber selection) + 1) in
        [ExecuteEdits source lineRange newText]
      else [ExecuteEdits source selection newText]
  end.

(** The [clear-format] chain of replacements. *)
Definition clearFormat (selectedText : jsstring) : jsstring :=
  replace numberMarkRe []
   (replace bulletMarkRe []
    (replace quoteMarkRe []
     (replace headingMarkRe []
      (replace linkRe [Group1]
       (replace codeRe [Group1]
        (replace strikeRe [Group1]
         (replace italicRe [Group1]
          (replace boldRe [Group1] selectedText)))))))).

Definition linkPlaceholder : jsstring := [38142; 25509; 25991; 26412]%N.
Definition tableHeader : jsstring := [26631; 39064]%N.
Definition tableContent : jsstring := [20869; 23481]%N.

(** The [switch (actionType)] of [handleMarkdownAction]: the calls made
    on the editor for the selection, the model and the selected text
    read beforehand.  An identifier without a [case] makes no call. *)
Definition dispatch (ref : option editor) (actionType : jsstring)
    (selection : Range) (model : jsstring) (selectedText : jsstring)
    : list call :=
  let case s := streq actionType s in
  let source := Some actionType in
  if case (lit "bold") then
    if startsWith selectedText (lit "**") && endsWith selectedText (lit "**")
    then [ExecuteEdits source selection (slice selectedText 2 (-2))]
    else [ExecuteEdits source selection
            (lit "**" ++ selectedText ++ lit "**")]
  else if case (lit "italic") then
    if startsWith selectedText (lit "*") && endsWith selectedText (lit "*")
       && (1 <? length selectedText)
    then [ExecuteEdits source selection (slice selectedText 1 (-1))]
    else [ExecuteEdits source selection (lit "*" ++ selectedText ++ lit "*")]
  else if case (lit "link") then
    let placeholderText := orElse (t (lit "link.placeholder")) linkPlaceholder in
    let newText :=
      if truthy selectedText
      then lit "[" ++ selectedText ++ lit "](url)"
      else lit "[" ++ placeholderText ++ lit "](url)" in
    let newSelection :=
      if truthy selectedText
      then mkRange (startLineNumber selection)
                   (startColumn selection + length selectedText + 3)
                   (endLineNumber selection)
                   (startColumn selection + length selectedText + 6)
      else mkRange (startLineNumber selection)
                   (startColumn selection + 1)
                   (startLineNumber selection)
                   (startColumn selection + 1 + length placeholderText) in
    [ExecuteEdits source selection newText; SetSelection newSelection; Focus]
  else if case (lit "inline-code") then
    if startsWith selectedText (lit "`") && endsWith selectedText (lit "`")
       && (1 <? length selectedText)
    then [ExecuteEdits source selection (slice selectedText 1 (-1))]
    else [ExecuteEdits source selection (lit "`" ++ selectedText ++ lit "`")]
  else if case (lit "code-block") then
    let codeText :=
      if truthy selectedText
      then lit "```" ++ [NL] ++ selectedText ++ [NL] ++ lit "```"
      else lit "```" ++ [NL]
           ++ orElse (t (lit "code.language")) (lit "language")
           ++ [NL] ++ lit "```" in
    ExecuteEdits source selection codeText ::
    (if negb (truthy selectedText)
     then [SetSelection (mkRange (startLineNumber selection + 1) 1
                                 (startLineNumber selection + 1) 9);
           Focus]
     else [])
  else if case (lit "blockquote") then
    [ExecuteEdits source selection
       (if truthy selectedText
        then prefixEachLine (lit "> ") selectedText
        else lit "> ")]
  else if case (lit "unordered-list") then
    [ExecuteEdits source selection
       (if truthy selectedText
        then prefixEachLine (lit "- ") selectedText
        else lit "- ")]
  else if case (lit "ordered-list") then
    [ExecuteEdits source selection
       (if truthy selectedText
        then join NL (mapi (fun index line =>
                              numberToString (index + 1) ++ lit ". " ++ line)
                           (split NL selectedText))
        else lit "1. ")]
  else if case (lit "heading-1") then
    handleHeadingAction ref 1 selection model selectedText
  else if case (lit "heading-2") then
    handleHeadingAction ref 2 selection model selectedText
  else if case (lit "heading-3") then
    handleHeadingAction ref 3 selection model selectedText
  else if case (lit "heading-4") then
    handleHeadingAction ref 4 selection model selectedText
  else if case (lit "horizontal-rule") then
    [ExecuteEdits source selection ([NL] ++ lit "---" ++ [NL]);
     SetPosition (mkPosition (startLineNumber selection + 2) 1);
     Focus]
  else if case (lit "strikethrough") then
    if startsWith selectedText (lit "~~") && endsWith selectedText (lit "~~")
    then [ExecuteEdits source selection (slice selectedText 2 (-2))]
    else [ExecuteEdits source selection
            (lit "~~" ++ selectedText ++ lit "~~")]
  else if case (lit "table") then
    let h := orElse (t (lit "table.header")) tableHeader in
    let c := orElse (t (lit "table.content")) tableContent in
    [ExecuteEdits source selection
       (lit "| " ++ h ++ lit " 1 | " ++ h ++ lit " 2 | " ++ h ++ lit " 3 |"
        ++ [NL] ++ lit "| --- | --- | --- |" ++ [NL]
        ++ lit "| " ++ c ++ lit " 1 | " ++ c ++ lit " 2 | " ++ c ++ lit " 3 |"
        ++ [NL])]
  else if case (lit "task-list") then
    [ExecuteEdits source selection
       (if truthy selectedText
        then prefixEachLine (lit "- [ ] ") selectedText
        else lit "- [ ] ")]
  else if case (lit "clear-format") then
    [ExecuteEdits source selection (clearFormat selectedText)]
  else if case (lit "increase-indent") then
    if truthy selectedText
    then [ExecuteEdits source selection
            (prefixEachLine (lit "    ") selectedText)]
    else
      let lineNumber := startLineNumber selection in
      let lineContent := getLineContent model lineNumber in
      [ExecuteEdits source
         (mkRange lineNumber 1 lineNumber (getLineLength model lineNumber + 1))
         (lit "    " ++ lineContent)]
  else if case (lit "decrease-indent") then
    if truthy selectedText
    then [ExecuteEdits source selection
            (join NL (map (fun line => replace indentRe [] line)
                          (split NL selectedText)))]
    else
      let lineNumber := startLineNumber selection in
      let lineContent := getLineContent model lineNumber in
      [ExecuteEdits source
         (mkRange lineNumber 1 lineNumber (getLineLength model lineNumber + 1))
         (replace indentRe [] lineContent)]
  else [].

(** [handleMarkdownAction(actionType)] *)
Definition handleMarkdownAction (actionType : jsstring) (w : world) : world :=
  match editorRef w with
  | None => w
  | Some editor =>
      match getSelection editor with
      | None => w
      | Some selection =>
          match getModel editor with
          | None => w
          | Some model =>
              let selectedText := getValueInRange model selection in
              editorDoAll
                (dispatch (editorRef w) actionType selection model selectedText)
                w
          end
      end
  end.

(** *** Uploads *)

(** [uploadImage(file, onSuccess, showAlert)]: the POST is sent and the
    continuations wait for the promise to settle. *)
Definition uploadImage (file : File) (onSuccess : callback)
    (showAlert : alerter) (w : world) : world :=
  post (mkRequest file onSuccess showAlert) w.

(** How the promise of a POST settles: fulfilled with [{data, error}],
    either of which may be null, or rejected with a reason. *)
Inductive outcome :=
| Resolved (data : option jsstring) (error : option jsstring)
| Rejected (reason : jsstring).

(** [`![${file.name}](${url})\n`] *)
Definition imageText (f : File) (url : jsstring) : jsstring :=
  lit "![" ++ name f ++ lit "](" ++ url ++ lit ")" ++ [NL].

Definition callShowAlert (a : alerter) (msg : jsstring) (w : world) : world :=
  match a with ConsoleError => consoleError msg w end.

Definition callOnSuccess (cb : callback) (url : jsstring) (w : world) : world :=
  match cb with
  | PasteInsert myfile =>
      match editorRef w with
      | None => w
      | Some editor =>
          match getSelection editor with
          | None => w
          | Some selection =>
              setUploading false
                (editorDo (ExecuteEdits None selection (imageText myfile url)) w)
          end
      end
  | InsertAt file selection =>
      editorDo (ExecuteEdits None selection (imageText file url))
               (setUploading false w)
  end.

(** The [.then(...)] and [.catch(...)] continuations of [uploadImage]. *)
Definition settle (r : request) (o : outcome) (w : world) : world :=
  match o with
  | Resolved data error =>
      let w1 := match error with
                | Some _ => callShowAlert (showAlert r) (t (lit "upload.failed")) w
                | None => w
                end in
      match data with
      | Some url =>
          if truthy url then callOnSuccess (onSuccess r) url w1 else w1
      | None => w1
      end
  | Rejected e =>
      callShowAlert (showAlert r) (t (lit "upload.failed")) (consoleError e w)
  end.

(** [handlePaste(event)], given [event.clipboardData.files]. *)
Definition handlePaste (files : list File) (w : world) : world :=
  match files with
  | [myfile] =>
      match editorRef w with
      | None => w
      | Some _ =>
          uploadImage myfile (PasteInsert myfile) ConsoleError
            (setUploading true (editorDo (Trigger (lit "undo")) w))
      end
  | _ => w
  end.

(** [upChange(event)], given [event.currentTarget.files]: the [for] loop
    with its early [return]s. *)
Fixpoint upChange (files : list File) (w : world) : world :=
  match files with
  | [] => w
  | file :: rest =>
      if (5 * 1024000 <? size file)%N
      then upChange rest
             (setUploadValue [] (alert (lit "File too large (max 5MB)") w))
      else
        match editorRef w with
        | None => w
        | Some editor =>
            match getSelection editor with
            | None => w
            | Some selection =>
                upChange rest
                  (uploadImage file (InsertAt file selection) ConsoleError
                     (setUploading true w))
            end
        end
  end.

(** The [onDrop] handler, given [e.dataTransfer.files]. *)
Fixpoint dropLoop (editor : editor) (files : list File) (w : world) : world :=
  match files with
  | [] => w
  | file :: rest =>
      match getSelection editor with
      | None => w
      | Some selection =>
          dropLoop editor rest
            (uploadImage file (InsertAt file selection) ConsoleError
               (setUploading true w))
      end
  end.

Definition onDrop (files : list File) (w : world) : world :=
  let w1 := preventDefault w in
  match editorRef w1 with
  | None => w1
  | Some editor => dropLoop editor files w1
  end.

(** *** The editor bridge: [handleEditorMount] and its listeners *)

Definition editorValue (w : world) : jsstring :=
  match editorRef w with
  | Some ed => getValue ed
  | None => []
  end.

Definition onDidCompositionStart (w : world) : world :=
  withComposing true w.

Definition onDidCompositionEnd (w : world) : world :=
  let w1 := withComposing false w in
  setContent (editorValue w1) w1.

Definition onDidChangeModelContent (w : world) : world :=
  if negb (isComposing w) then setContent (editorValue w) w else w.

Definition onDidBlurEditorText (w : world) : world :=
  setContent (editorValue w) w.

(** The key bindings registered at mount: the action id and the
    identifier its [run] hands to [handleMarkdownAction]. *)
Definition headingBindings : list (jsstring * jsstring) :=
  map (fun level =>
         (lit "markdown-heading-" ++ numberToString level,
          lit "heading-" ++ numberToString level))
      (seq 1 6).

Definition keyBindings : list (jsstring * jsstring) :=
  [ (lit "markdown-bold", lit "bold");
    (lit "markdown-italic", lit "italic");
    (lit "markdown-link", lit "link");
    (lit "markdown-inline-code", lit "inline-code");
    (lit "markdown-code-block", lit "code-block");
    (lit "markdown-blockquote", lit "blockquote");
    (lit "markdown-unordered-list", lit "unordered-list");
    (lit "markdown-ordered-list", lit "ordered-list") ]
  ++ headingBindings ++
  [ (lit "markdown-horizontal-rule", lit "horizontal-rule");
    (lit "markdown-strikethrough", lit "strikethrough");
    (lit "markdown-table", lit "table");
    (lit "markdown-task-list", lit "task-list");
    (lit "markdown-clear-format", lit "clear-format");
    (lit "markdown-increase-indent", lit "increase-indent");
    (lit "markdown-decrease-indent", lit "decrease-indent") ].

Definition handleEditorMount (editorInstance : editor) (w : world) : world :=
  withEditorRef (Some editorInstance) w.

(** What Monaco reports to the listeners.  A content change carries the
    text the model holds once the change is made. *)
Inductive event :=
| CompositionStart
| CompositionEnd
| ChangeModelContent (text : jsstring)
| BlurEditorText.

Definition setModelText (text : jsstring) (w : world) : world :=
  match editorRef w with
  | Some ed =>
      withEditorRef
        (Some (mkEditor (Some text) (selection ed) (undoStack ed) (focused ed)))
        w
  | None => w
  end.

Definition deliver (e : event) (w : world) : world :=
  match e with
  | CompositionStart => onDidCompositionStart w
  | CompositionEnd => onDidCompositionEnd w
  | ChangeModelContent text => onDidChangeModelContent (setModelText text w)
  | BlurEditorText => onDidBlurEditorText w
  end.

Definition deliverAll (es : list event) (w : world) : world :=
  fold_left (fun w' e => deliver e w') es w.

(** *** The earlier revision

    There every key binding has its [run] inline: it reads the selection
    and the model from the mounted editor itself and then does what the
    matching case of [handleMarkdownAction] does.  The bold and italic
    bindings and [addHeadingAction(level)], registered for each level
    from 1 to 6, follow. *)
Definition runOnSelection
    (body : Range -> jsstring -> jsstring -> list call) (w : world) : world :=
  match editorRef w with
  | None => w
  | Some editorInstance =>
      match getSelection editorInstance with
      | None => w
      | Some selection =>
          match getModel editorInstance with
          | None => w
          | Some model =>
              editorDoAll
                (body selection model (getValueInRange model selection)) w
          end
      end
  end.

Definition markdownBoldRun : world -> world :=
  runOnSelection (fun selection _ selectedText =>
    if startsWith selectedText (lit "**") && endsWith selectedText (lit "**")
    then [ExecuteEdits (Some (lit "bold")) selection
            (slice selectedText 2 (-2))]
    else [ExecuteEdits (Some (lit "bold")) selection
            (lit "**" ++ selectedText ++ lit "**")]).

Definition markdownItalicRun : world -> world :=
  runOnSelection (fun selection _ selectedText =>
    if startsWith selectedText (lit "*") && endsWith selectedText (lit "*")
       && (1 <? length selectedText)
    then [ExecuteEdits (Some (lit "italic")) selection
            (slice selectedText 1 (-1))]
    else [ExecuteEdits (Some (lit "italic")) selection
            (lit "*" ++ selectedText ++ lit "*")]).

Definition addHeadingActionRun (level : nat) (w : world) : world :=
  runOnSelection (fun selection model selectedText =>
    handleHeadingAction (editorRef w) level selection model selectedText) w.

End MarkdownEditor.

(** ** Vocabulary of the properties *)

Section Vocabulary.

Variable t : jsstring -> jsstring.
Variable cursorAfter : call -> editor -> option Range.

(** In [w] the editor is mounted with a model, its selection is
    [selection], and the text in that range is [selectedText]. *)
Definition selected (w : world) (selection : Range) (selectedText : jsstring)
    : Prop :=
  exists ed m,
    editorRef w = Some ed /\ getSelection ed = Some selection /\
    getModel ed = Some m /\ getValueInRange m selection = selectedText.

(** The action [actionType] on the selected text [x] replaces the
    selection by [y], and does nothing else. *)
Definition produces (actionType : jsstring) (x y : jsstring) : Prop :=
  forall w selection,
    selected w selection x ->
    handleMarkdownAction t cursorAfter actionType w
    = editorDo cursorAfter (ExecuteEdits (Some actionType) selection y) w.

(** The text an action produces, split into lines, is the selected text
    split into lines with [prefix index] put before line number [index]
    (counting from 0). *)
Definition lineByLine (actionType : jsstring) (prefix : nat -> jsstring)
    (x : jsstring) : Prop :=
  exists y,
    produces actionType x y /\
    split NL y = mapi (fun index line => prefix index ++ line) (split NL x).

(** The events that end a composition. *)
Definition isCompositionEnd (e : event) : bool :=
  match e with CompositionEnd => true | _ => false end.

(** The message of the size-exceeded alert. *)
Definition tooLarge : jsstring := lit "File too large (max 5MB)".

(** The request failed: the promise was rejected (network failure), or
    it was fulfilled with an error and no data (the server refused). *)
Definition failed (o : outcome) : Prop :=
  match o with
  | Rejected _ => True
  | Resolved data error => data = None /\ error <> None
  end.

(** The range from the start of the first line to the end of the last. *)
Definition wholeText (x : jsstring) : Range :=
  let n := length (lines x) in
  mkRange 1 1 n (getLineLength x n + 1).

(** A component whose editor is mounted on the text [x] with the
    selection [selection], and nothing else has happened yet. *)
Definition editing (x : jsstring) (selection : Range) : world :=
  mkWorld (Some (mkEditor (Some x) (Some selection) [] true))
          false [] false [] [] [] [] false.

(** A translation table without entries: [t] returns the key. *)
Definition untranslated (key : jsstring) : jsstring := key.

(** A cursor placement for concrete runs: after an edit the inserted
    text is selected (on one line), otherwise the selection stays. *)
Definition selectInserted (c : call) (ed : editor) : option Range :=
  match c with
  | ExecuteEdits _ r text =>
      Some (mkRange (startLineNumber r) (startColumn r)
                    (startLineNumber r) (startColumn r + length text))
  | _ => selection ed
  end.

End Vocabulary.

(** ** Sample inputs *)

Definition twoLines : jsstring := lit "a" ++ [NL] ++ lit "b".

(** The component before the editor is mounted. *)
Definition unmounted : world :=
  mkWorld None false [] false [] [] [] [] false.

(** The text [n] with the cursor behind it. *)
Definition typing : world := editing (lit "n") (mkRange 1 2 1 2).

Definition composingEvents : list event :=
  [ChangeModelContent (lit "ni"); BlurEditorText].

Definition someText : world := editing (lit "text") (mkRange 1 1 1 1).

Definition bigFile : File := mkFile (lit "big.png") 5120001.
Definition mediumFile : File := mkFile (lit "photo.png") 5000001.
Definition photo : File := mkFile (lit "photo.png") 1000.

Definition insertPhoto : request :=
  mkRequest photo (InsertAt photo (mkRange 1 1 1 1)) ConsoleError.

(** The server answers with an error; the network is down. *)
Definition refused : outcome := Resolved None (Some (lit "500")).
Definition offline : outcome := Rejected (lit "Failed to fetch").

(** The text [b], typed over [a]. *)
Definition afterTyping : world :=
  mkWorld (Some (mkEditor (Some (lit "b")) (Some (mkRange 1 2 1 2))
                          [lit "a"] true))
          false [] false [] [] [] [] false.

(** The line [## Hello world] with the word [Hello] selected. *)
Definition helloSelected : world :=
  editing (lit "## Hello world") (mkRange 1 4 1 9).

(** ** The rest of the component *)

Section Rest.

Variable t : jsstring -> jsstring.
Variable cursorAfter : call -> editor -> option Range.



(** *** The earlier revision: the remaining key bindings and the toolbar *)

(** [handleInsert(text)] of [ToolbarButtons]. *)
Definition handleInsert (text : jsstring) (w : world) : world :=
  match editorRef w with
  | None => w
  | Some editor =>
      match getSelection editor with
      | None => w
      | Some selection =>
          editorDo cursorAfter (ExecuteEdits None selection text) w
      end
  end.

(** The four buttons beside the upload button. *)
Definition toolbarBold : world -> world := handleInsert (lit "****").
Definition toolbarItalic : world -> world := handleInsert (lit "**").
Definition toolbarLink : world -> world := handleInsert (lit "[](url)").
Definition toolbarCode : world -> world :=
  handleInsert (lit "```" ++ [NL] ++ lit "code" ++ [NL] ++ lit "```").








(** *** Documents line by line *)

(** A line holds no line feed. *)
Definition lineFree (l : jsstring) : Prop := ~ In NL l.

(** The text of the lines above a line, each with its line feed, and of
    the lines below it, each after a line feed. *)
Definition linesBefore (above : list jsstring) : jsstring :=
  concat (map (fun l => l ++ [NL]) above).

Definition linesAfter (below : list jsstring) : jsstring :=
  concat (map (fun l => NL :: l) below).

(** The document with the lines [above], then [line], then [below]. *)
Definition document (above : list jsstring) (line : jsstring)
    (below : list jsstring) : jsstring :=
  linesBefore above ++ line ++ linesAfter below.

(** The range from offset [a] to offset [b] of the line under [above]. *)
Definition span (above : list jsstring) (a b : nat) : Range :=
  mkRange (S (length above)) (S a) (S (length above)) (S b).

(** In [w] the editor is mounted on the text [doc] with the selection
    [selection]. *)
Definition holds (w : world) (doc : jsstring) (selection : Range) : Prop :=
  exists ed,
    editorRef w = Some ed /\ getModel ed = Some doc /\
    getSelection ed = Some selection.

(** *** Vocabulary of the further properties *)

(** The action identifiers [handleMarkdownAction] has a case for. *)
Definition handledActions : list jsstring :=
  [lit "bold"; lit "italic"; lit "link"; lit "inline-code"; lit "code-block";
   lit "blockquote"; lit "unordered-list"; lit "ordered-list";
   lit "heading-1"; lit "heading-2"; lit "heading-3"; lit "heading-4";
   lit "horizontal-rule"; lit "strikethrough"; lit "table"; lit "task-list";
   lit "clear-format"; lit "increase-indent"; lit "decrease-indent"].


(** The editor is mounted with a model and the selection [selection]. *)
Definition ready (w : world) (selection : Range) : Prop :=
  exists ed m,
    editorRef w = Some ed /\ getSelection ed = Some selection /\
    getModel ed = Some m.

(** The size test of [upChange]. *)
Definition oversized (f : File) : bool := (5 * 1024000 <? size f)%N.

(** The number of leading spaces of a line. *)
Fixpoint leadingSpaces (line : jsstring) : nat :=
  match line with
  | c :: line' => if N.eqb c 32 then S (leadingSpaces line') else 0
  | [] => 0
  end.

(** A character that starts no pattern of the clear-format action:
    not one of [* ~ ` [ # > -] and not a digit. *)
Definition plain (c : N) : bool :=
  negb (N.eqb c 42) && negb (N.eqb c 126) && negb (N.eqb c 96)
  && negb (N.eqb c 91) && negb (N.eqb c 35) && negb (N.eqb c 62)
  && negb (N.eqb c 45) && negb (Regex.digit c).

End Rest.

(** ** Further sample inputs *)


(** A note of three lines; in the middle one, [see docs now], the word
    [docs] is selected, or the cursor stands after [see ]. *)
Definition noteAbove : list jsstring := [lit "# Notes"].
Definition noteBelow : list jsstring := [lit "end"].

Definition docsSelected : world :=
  editing (document noteAbove (lit "see " ++ lit "docs" ++ lit " now")
                    noteBelow)
          (span noteAbove 4 8).




Definition indentedLine : jsstring := lit "      deep".

Definition cursorInIndented : world :=
  editing (document noteAbove indentedLine noteBelow) (span noteAbove 2 2).

(** A selection of two lines, indented by two and by five spaces. *)
Definition twoIndented : jsstring := lit "  a" ++ [NL] ++ lit "     b".

(** Text without markup. *)
Definition plainText : jsstring := lit "so_far, so good." ++ [NL] ++ lit "(ok)".

(** A composition that has begun. *)
Definition composingSoFar : list event :=
  [CompositionStart; ChangeModelContent (lit "ni")].

Definition uploaded : outcome :=
  Resolved (Some (lit "https://files.example/photo.png")) None.

(** * Properties *)

(** ** Strings *)

Lemma streq_refl (a : jsstring) : streq a a = true.
Proof.
  induction a as [|x a IH]; simpl; [reflexivity|].
  now rewrite N.eqb_refl.
Qed.

Lemma streq_eq (a b : jsstring) : streq a b = true -> a = b.
Proof.
  revert b; induction a as [|x a IH]; intros [|y b]; simpl; try discriminate.
  - reflexivity.
  - intros H. apply andb_true_iff in H as [Hxy Hab].
    apply N.eqb_eq in Hxy. subst y. f_equal. now apply IH.
Qed.

Lemma startsWith_app (p s : jsstring) : startsWith (p ++ s) p = true.
Proof.
  induction p as [|y p IH]; simpl; [reflexivity|].
  now rewrite N.eqb_refl.
Qed.

Lemma endsWith_app (s p : jsstring) : endsWith (s ++ p) p = true.
Proof.
  unfold endsWith. rewrite length_app.
  replace (length s + length p - length p) with (length s) by lia.
  rewrite skipn_app, skipn_all, Nat.sub_diag. simpl.
  rewrite streq_refl, andb_true_r. apply Nat.leb_le. lia.
Qed.

(** Slicing [|p|] code units off the front and [|q|] off the back of
    [p ++ x ++ q] leaves [x]; [q] must not be empty, as [slice(n, -0)]
    is [slice(n, 0)]. *)
Lemma slice_strip (p x q : jsstring) :
  q <> [] ->
  slice (p ++ x ++ q) (Z.of_nat (length p)) (- Z.of_nat (length q)) = x.
Proof.
  intros Hq.
  assert (0 < length q) by (destruct q; simpl; [congruence | lia]).
  unfold slice, sliceIndex. rewrite !length_app.
  destruct (Z.ltb_spec (Z.of_nat (length p)) 0) as [Hneg|_]; [lia|].
  destruct (Z.ltb_spec (- Z.of_nat (length q)) 0) as [_|Hpos]; [|lia].
  rewrite Z.min_l by lia.
  rewrite Nat2Z.id, skipn_app, skipn_all, Nat.sub_diag. simpl.
  replace (Z.to_nat _) with (length x) by lia.
  rewrite firstn_app, firstn_all, Nat.sub_diag. simpl. apply app_nil_r.
Qed.

Section Claims.
Import Regex Patterns.

Variable t : jsstring -> jsstring.
Variable cursorAfter : call -> editor -> option Range.

Local Abbreviation handleMarkdownAction := (handleMarkdownAction t cursorAfter).
Local Abbreviation dispatch := (dispatch t).
Local Abbreviation editorDo := (editorDo cursorAfter).
Local Abbreviation editorDoAll := (editorDoAll cursorAfter).
Local Abbreviation settle := (settle t cursorAfter).
Local Abbreviation handlePaste := (handlePaste cursorAfter).
Local Abbreviation produces := (produces t cursorAfter).
Local Abbreviation lineByLine := (lineByLine t cursorAfter).

(** ** The dispatcher on a selection *)

Lemma handle_selected (actionType : jsstring) (w : world) (selection : Range)
    (x : jsstring) :
  selected w selection x ->
  exists m,
    handleMarkdownAction actionType w
    = editorDoAll (dispatch (editorRef w) actionType selection m x) w.
Proof.
  intros (ed & m & Href & Hsel & Hm & Htext). exists m.
  unfold handleMarkdownAction.
  rewrite Href, Hsel, Hm. cbv zeta. now rewrite Htext.
Qed.

Lemma produces_intro (actionType : jsstring) (x y : jsstring) :
  (forall ref selection m,
     dispatch ref actionType selection m x
     = [ExecuteEdits (Some actionType) selection y]) ->
  produces actionType x y.
Proof.
  intros Hd w selection Hs.
  destruct (handle_selected actionType Hs) as [m ->].
  now rewrite Hd.
Qed.

Lemma dispatch_bold ref selection m x :
  dispatch ref (lit "bold") selection m x
  = if startsWith x (lit "**") && endsWith x (lit "**")
    then [ExecuteEdits (Some (lit "bold")) selection (slice x 2 (-2))]
    else [ExecuteEdits (Some (lit "bold")) selection (lit "**" ++ x ++ lit "**")].
Proof. reflexivity. Qed.

Lemma dispatch_italic ref selection m x :
  dispatch ref (lit "italic") selection m x
  = if startsWith x (lit "*") && endsWith x (lit "*") && (1 <? length x)
    then [ExecuteEdits (Some (lit "italic")) selection (slice x 1 (-1))]
    else [ExecuteEdits (Some (lit "italic")) selection (lit "*" ++ x ++ lit "*")].
Proof. reflexivity. Qed.

Lemma bold_wraps (x : jsstring) :
  startsWith x (lit "**") && endsWith x (lit "**") = false ->
  produces (lit "bold") x (lit "**" ++ x ++ lit "**").
Proof.
  intros H. apply produces_intro. intros. now rewrite dispatch_bold, H.
Qed.

Lemma bold_strips (x : jsstring) :
  produces (lit "bold") (lit "**" ++ x ++ lit "**") x.
Proof.
  apply produces_intro. intros. rewrite dispatch_bold.
  rewrite (startsWith_app (lit "**")).
  rewrite (app_assoc (lit "**") x), endsWith_app, <- app_assoc. simpl andb.
  cbv iota. do 3 f_equal.
  apply (@slice_strip (lit "**") x (lit "**")). discriminate.
Qed.

(** C5.  For every string [x] that does not both start and end with
    [**], the bold action on the selection [x] produces [**x**]; the bold
    action on the selection [**x**] produces [x] again, so toggling bold
    twice returns [x]. *)
Theorem bold_toggle_round_trip (x : jsstring) :
  ~ (startsWith x (lit "**") = true /\ endsWith x (lit "**") = true) ->
  produces (lit "bold") x (lit "**" ++ x ++ lit "**") /\
  produces (lit "bold") (lit "**" ++ x ++ lit "**") x.
Proof.
  intros H. split; [apply bold_wraps | apply bold_strips].
  destruct (startsWith x (lit "**")), (endsWith x (lit "**")); simpl; tauto.
Qed.

(** C9.  The italic action strips one character from each end whenever
    the selection starts with [*], ends with [*] and is longer than one
    character; the bold-wrapped selection [**x**] meets that test, so
    italic turns it into [*x*] instead of wrapping it. *)
Theorem italic_strip_branch :
  (forall x,
     startsWith x (lit "*") = true -> endsWith x (lit "*") = true ->
     1 < length x ->
     produces (lit "italic") x (slice x 1 (-1))) /\
  produces (lit "italic") (lit "**x**") (lit "*x*").
Proof.
  assert (Hgen : forall x,
     startsWith x (lit "*") = true -> endsWith x (lit "*") = true ->
     1 < length x -> produces (lit "italic") x (slice x 1 (-1))).
  { intros x Hs He Hl. apply produces_intro. intros.
    rewrite dispatch_italic, Hs, He.
    apply Nat.ltb_lt in Hl. now rewrite Hl. }
  split; [exact Hgen|].
  apply (Hgen (lit "**x**")); [reflexivity | reflexivity | simpl; lia].
Qed.

(** C10, as the code has it.  The strip branch of the bold toggle has no
    minimum-length guard: on [**] and on [***], where the leading and
    the trailing marker overlap, it yields the empty string, and bold on
    the empty string yields [****], so bold applied twice to [***] does
    not give [***] back.  The one-character selection [*] is wrapped to
    [*****], and bold on that returns [*]. *)
Theorem bold_overlapping_markers :
  produces (lit "bold") (lit "***") [] /\
  produces (lit "bold") (lit "**") [] /\
  produces (lit "bold") [] (lit "****") /\
  produces (lit "bold") (lit "*") (lit "*****") /\
  produces (lit "bold") (lit "*****") (lit "*").
Proof.
  repeat split; apply produces_intro; reflexivity.
Qed.

(** ** Missing editor, selection or model *)

(** C8.  Whatever the action identifier, if the editor instance, its
    selection or its model is absent when the action is dispatched, the
    action changes nothing: no edit, no other call on the editor, no
    change of the component state. *)
Theorem action_without_target_is_noop (actionType : jsstring) (w : world) :
  (editorRef w = None \/
   exists ed, editorRef w = Some ed /\
              (getSelection ed = None \/ getModel ed = None)) ->
  handleMarkdownAction actionType w = w.
Proof.
  unfold handleMarkdownAction.
  intros [Href | (ed & Href & [Hsel | Hm])]; rewrite Href.
  - reflexivity.
  - now rewrite Hsel.
  - rewrite Hm. now destruct (getSelection ed).
Qed.

(** ** The editor bridge *)

Lemma composing_until_end (es : list event) (w : world) :
  forallb (fun e => negb (isCompositionEnd e)) es = true ->
  isComposing w = true ->
  isComposing (deliverAll es w) = true.
Proof.
  revert w. induction es as [|e es IH]; intros w Hes Hw; simpl in *.
  - exact Hw.
  - apply andb_true_iff in Hes as [He Hes]. apply IH; [exact Hes|].
    destruct e; simpl in *; try discriminate; try exact Hw.
    + reflexivity.
    + unfold onDidChangeModelContent, setModelText.
      now destruct (editorRef w); simpl; rewrite Hw.
Qed.

(** C7.  After a composition-start event and until the matching
    composition-end, the bridge is composing and a content-change
    notification does not call [setContent].  The composition-end event
    ends the composing state and commits the current editor text, and a
    loss of focus commits it in any state. *)
Theorem composition_suppresses_changes (w : world) (es : list event)
    (text : jsstring) :
  forallb (fun e => negb (isCompositionEnd e)) es = true ->
  let w1 := deliverAll es (deliver CompositionStart w) in
  isComposing w1 = true /\
  committed (deliver (ChangeModelContent text) w1) = committed w1 /\
  committed (deliver CompositionEnd w1) = committed w1 ++ [editorValue w1] /\
  isComposing (deliver CompositionEnd w1) = false /\
  (forall w', committed (deliver BlurEditorText w')
              = committed w' ++ [editorValue w']).
Proof.
  intros Hes w1.
  assert (Hc : isComposing w1 = true)
    by (apply composing_until_end; [exact Hes | reflexivity]).
  repeat split.
  - exact Hc.
  - simpl. unfold onDidChangeModelContent, setModelText.
    now destruct (editorRef w1); simpl; rewrite Hc.
Qed.

(** ** The upload button *)

Lemma upChange_requests (files : list File) (w : world) :
  exists sent,
    requests (upChange files w) = requests w ++ sent /\
    Forall (fun r => (size (file r) <= 5120000)%N) sent.
Proof.
  revert w. induction files as [|f rest IH]; intros w; cbn [upChange].
  - exists []. now rewrite app_nil_r.
  - destruct (N.ltb_spec (5 * 1024000) (size f)) as [Hbig | Hok].
    + destruct (IH (setUploadValue [] (alert (lit "File too large (max 5MB)") w)))
        as (sent & Hreq & Hall).
      exists sent. rewrite Hreq. now split.
    + destruct (editorRef w) as [ed|];
        [destruct (getSelection ed) as [sel|] |];
        try (exists []; now rewrite app_nil_r).
      destruct (IH (uploadImage f (InsertAt f sel) ConsoleError
                      (setUploading true w))) as (sent & Hreq & Hall).
      exists (mkRequest f (InsertAt f sel) ConsoleError :: sent). split.
      * rewrite Hreq. cbn [uploadImage post setUploading requests].
        now rewrite <- app_assoc.
      * constructor; [cbn [file]; lia | exact Hall].
Qed.

(** C1, as the code has it.  The threshold is [5 * 1024000] = 5,120,000
    bytes.  A file strictly larger than that, submitted through the
    change handler of the upload button, takes the size-exceeded path:
    the alert is shown, the file input is cleared, nothing else changes
    and no request is sent; and whatever list of files the handler is
    given, none of the requests it sends is for such a file. *)
Theorem upChange_rejects_large_file (f : File) (w : world) :
  (5120000 < size f)%N ->
  upChange [f] w = setUploadValue [] (alert tooLarge w) /\
  requests (upChange [f] w) = requests w /\
  (forall files w', exists sent,
      requests (upChange files w') = requests w' ++ sent /\
      ~ In f (map file sent)).
Proof.
  intros Hbig.
  assert (Hlt : (5 * 1024000 <? size f)%N = true) by (apply N.ltb_lt; lia).
  repeat split.
  - cbn [upChange]. now rewrite Hlt.
  - cbn [upChange]. now rewrite Hlt.
  - intros files w'. destruct (upChange_requests files w') as (sent & Hreq & Hall).
    exists sent. split; [exact Hreq|].
    intros Hin. apply in_map_iff in Hin as (r & Hr & Hin).
    rewrite Forall_forall in Hall. specialize (Hall r Hin).
    rewrite Hr in Hall. lia.
Qed.

(** ** Failed uploads *)

Lemma documentText_ext (w w' : world) :
  editorRef w = editorRef w' -> documentText w = documentText w'.
Proof. unfold documentText. now intros ->. Qed.

Lemma settle_failed_editor (r : request) (o : outcome) (w : world) :
  failed o -> editorRef (settle r o w) = editorRef w.
Proof.
  destruct o as [data error | reason]; simpl.
  - intros [-> Herr]. destruct error; [|congruence].
    now destruct (showAlert r).
  - intros _. now destruct (showAlert r).
Qed.

Lemma upChange_editor (files : list File) (w : world) :
  editorRef (upChange files w) = editorRef w.
Proof.
  revert w. induction files as [|f rest IH]; intros w; cbn [upChange].
  - reflexivity.
  - destruct (5 * 1024000 <? size f)%N.
    + now rewrite IH.
    + destruct (editorRef w) as [ed|] eqn:Href; [|exact Href].
      destruct (getSelection ed); [|exact Href].
      now rewrite IH.
Qed.

Lemma dropLoop_editor (ed : editor) (files : list File) (w : world) :
  editorRef (dropLoop ed files w) = editorRef w.
Proof.
  revert w. induction files as [|f rest IH]; intros w; cbn [dropLoop].
  - reflexivity.
  - destruct (getSelection ed); [|reflexivity]. now rewrite IH.
Qed.

Lemma onDrop_editor (files : list File) (w : world) :
  editorRef (onDrop files w) = editorRef w.
Proof.
  unfold onDrop. cbn [preventDefault editorRef].
  destruct (editorRef w) as [ed|] eqn:Href; [|exact Href].
  now rewrite dropLoop_editor.
Qed.

Lemma handlePaste_editor (files : list File) (w : world) :
  editorRef (handlePaste files w)
  = editorRef (match files with
               | [_] => editorDo (Trigger (lit "undo")) w
               | _ => w
               end).
Proof.
  destruct files as [|f [|g rest]]; try reflexivity.
  unfold handlePaste, editorDo.
  now destruct (editorRef w).
Qed.

(** C4, as the code has it.  When the request fails, the failure branch
    applies no edit: the editor is as it was before the promise settled.
    On the file-select and drop paths the whole interaction, from the
    handler to the settled promise, leaves the document text as it was.
    On the paste path the handler sends the editor an undo before the
    request goes out, and that undo is the only change to the document
    text. *)
Theorem failed_upload_applies_no_edit (r : request) (o : outcome) :
  failed o ->
  (forall w, editorRef (settle r o w) = editorRef w) /\
  (forall files w,
     documentText (settle r o (upChange files w)) = documentText w) /\
  (forall files w,
     documentText (settle r o (onDrop files w)) = documentText w) /\
  (forall files w,
     documentText (settle r o (handlePaste files w))
     = documentText (match files with
                     | [_] => editorDo (Trigger (lit "undo")) w
                     | _ => w
                     end)).
Proof.
  intros Hf. repeat split; intros.
  - now apply settle_failed_editor.
  - apply documentText_ext.
    now rewrite settle_failed_editor, upChange_editor.
  - apply documentText_ext.
    now rewrite settle_failed_editor, onDrop_editor.
  - apply documentText_ext.
    now rewrite settle_failed_editor, handlePaste_editor.
Qed.

(** ** Line prefixes *)

Lemma split_free (sep : N) (s : jsstring) :
  ~ In sep s -> split sep s = [s].
Proof.
  clear t cursorAfter.
  induction s as [|c s IH]; simpl; intros Hn; [reflexivity|].
  destruct (N.eqb_spec c sep) as [->|_]; [tauto|].
  now rewrite IH by tauto.
Qed.

Lemma split_app_sep (sep : N) (p rest : jsstring) :
  ~ In sep p -> split sep (p ++ sep :: rest) = p :: split sep rest.
Proof.
  clear t cursorAfter.
  induction p as [|c p IH]; simpl; intros Hn.
  - now rewrite N.eqb_refl.
  - destruct (N.eqb_spec c sep) as [->|_]; [tauto|].
    now rewrite IH by tauto.
Qed.

Lemma split_pieces_free (sep : N) (s : jsstring) :
  Forall (fun l => ~ In sep l) (split sep s).
Proof.
  clear t cursorAfter.
  induction s as [|c s IH]; simpl.
  - constructor; [tauto | constructor].
  - destruct (N.eqb_spec c sep) as [->|Hne].
    + constructor; [tauto | exact IH].
    + destruct (split sep s) as [|l ls].
      * constructor; [simpl; intuition congruence | constructor].
      * inversion IH; subst. constructor; [|assumption].
        simpl. intuition congruence.
Qed.

Lemma split_join (sep : N) (pieces : list jsstring) :
  pieces <> [] ->
  Forall (fun l => ~ In sep l) pieces ->
  split sep (join sep pieces) = pieces.
Proof.
  induction pieces as [|p ps IH]; [congruence|]. intros _ Hall.
  inversion Hall as [|? ? Hp Hps]; subst.
  destruct ps as [|q ps].
  - simpl. now apply split_free.
  - change (join sep (p :: q :: ps)) with (p ++ sep :: join sep (q :: ps)).
    rewrite split_app_sep by exact Hp.
    f_equal. apply IH; [discriminate | exact Hps].
Qed.

Lemma split_not_nil (sep : N) (s : jsstring) : split sep s <> [].
Proof.
  destruct s as [|c s]; simpl; [discriminate|].
  destruct (N.eqb c sep); [discriminate|].
  destruct (split sep s); discriminate.
Qed.

Lemma mapiFrom_not_nil {A B} (f : nat -> A -> B) (i : nat) (xs : list A) :
  xs <> [] -> mapiFrom f i xs <> [].
Proof. destruct xs; [congruence | discriminate]. Qed.

Lemma mapiFrom_Forall {A B} (P : A -> Prop) (Q : B -> Prop)
    (f : nat -> A -> B) (xs : list A) :
  (forall i x, P x -> Q (f i x)) ->
  Forall P xs -> forall i, Forall Q (mapiFrom f i xs).
Proof.
  intros Hf Hall. induction Hall; intros i; simpl; constructor; auto.
Qed.

Lemma mapiFrom_const {A B} (f : A -> B) (i : nat) (xs : list A) :
  mapiFrom (fun _ x => f x) i xs = map f xs.
Proof.
  revert i. induction xs as [|x xs IH]; intros i; simpl; [reflexivity|].
  now rewrite IH.
Qed.

Lemma mapiFrom_ext {A B} (f g : nat -> A -> B) (i : nat) (xs : list A) :
  (forall j x, f j x = g j x) -> mapiFrom f i xs = mapiFrom g i xs.
Proof.
  intros H. revert i. induction xs as [|x xs IH]; intros i; simpl;
    [reflexivity | now rewrite H, IH].
Qed.

Lemma digitsFuel_chars (fuel n : nat) (acc : jsstring) (c : N) :
  In c (digitsFuel fuel n acc) -> In c acc \/ (48 <= c <= 57)%N.
Proof.
  revert n acc. induction fuel as [|fuel IH]; intros n acc; cbn [digitsFuel].
  - intros [<-|H]; [right | now left].
    pose proof (Nat.mod_upper_bound n 10). lia.
  - assert (Hd : In c ((48 + N.of_nat (n mod 10))%N :: acc) ->
                 In c acc \/ (48 <= c <= 57)%N).
    { intros [<-|H]; [right | now left].
      pose proof (Nat.mod_upper_bound n 10). lia. }
    destruct (n / 10 =? 0); [exact Hd|].
    intros H. apply IH in H as [H|H]; [now apply Hd | now right].
Qed.

Lemma numberToString_no_NL (n : nat) : ~ In NL (numberToString n).
Proof.
  intros H. apply digitsFuel_chars in H as [[]|H]. unfold NL in H. lia.
Qed.

Lemma prefixed_lines_split (prefix : nat -> jsstring) (x : jsstring) :
  (forall i, ~ In NL (prefix i)) ->
  let pieces := mapi (fun index line => prefix index ++ line) (split NL x) in
  split NL (join NL pieces) = pieces.
Proof.
  intros Hp pieces. apply split_join.
  - apply mapiFrom_not_nil, split_not_nil.
  - apply mapiFrom_Forall with (P := fun l => ~ In NL l).
    + intros i l Hl Hin. apply in_app_iff in Hin as [Hin|Hin];
        [exact (Hp i Hin) | exact (Hl Hin)].
    + apply split_pieces_free.
Qed.

Lemma truthy_nonempty (x : jsstring) : x <> [] -> truthy x = true.
Proof. destruct x; [congruence | reflexivity]. Qed.

Lemma constant_prefix_lineByLine (actionType prefix : jsstring) (x : jsstring) :
  ~ In NL prefix ->
  (forall ref selection m,
     dispatch ref actionType selection m x
     = [ExecuteEdits (Some actionType) selection (prefixEachLine prefix x)]) ->
  lineByLine actionType (fun _ => prefix) x.
Proof.
  intros Hp Hd. exists (prefixEachLine prefix x). split.
  - now apply produces_intro.
  - unfold prefixEachLine. rewrite <- (mapiFrom_const _ 0).
    now apply (@prefixed_lines_split (fun _ => prefix)).
Qed.

Lemma dispatch_blockquote ref selection m x :
  dispatch ref (lit "blockquote") selection m x
  = [ExecuteEdits (Some (lit "blockquote")) selection
       (if truthy x then prefixEachLine (lit "> ") x else lit "> ")].
Proof. reflexivity. Qed.

Lemma dispatch_unordered ref selection m x :
  dispatch ref (lit "unordered-list") selection m x
  = [ExecuteEdits (Some (lit "unordered-list")) selection
       (if truthy x then prefixEachLine (lit "- ") x else lit "- ")].
Proof. reflexivity. Qed.

Lemma dispatch_ordered ref selection m x :
  dispatch ref (lit "ordered-list") selection m x
  = [ExecuteEdits (Some (lit "ordered-list")) selection
       (if truthy x
        then join NL (mapi (fun index line =>
                              numberToString (index + 1) ++ lit ". " ++ line)
                           (split NL x))
        else lit "1. ")].
Proof. reflexivity. Qed.

Lemma dispatch_task ref selection m x :
  dispatch ref (lit "task-list") selection m x
  = [ExecuteEdits (Some (lit "task-list")) selection
       (if truthy x then prefixEachLine (lit "- [ ] ") x else lit "- [ ] ")].
Proof. reflexivity. Qed.

Lemma literal_no_NL (p : jsstring) :
  forallb (fun c => negb (N.eqb c NL)) p = true -> ~ In NL p.
Proof.
  intros Hp Hin. rewrite forallb_forall in Hp.
  specialize (Hp _ Hin). now rewrite N.eqb_refl in Hp.
Qed.

(** C6.  On every non-empty selection the blockquote, unordered-list,
    ordered-list and task-list actions produce one output line per input
    line, in the same order: the input line with [> ], [- ], [k. ] (k
    counting from 1) or [- [ ] ] put before it. *)
Theorem list_actions_prefix_every_line (x : jsstring) :
  x <> [] ->
  lineByLine (lit "blockquote") (fun _ => lit "> ") x /\
  lineByLine (lit "unordered-list") (fun _ => lit "- ") x /\
  lineByLine (lit "ordered-list")
             (fun index => numberToString (index + 1) ++ lit ". ") x /\
  lineByLine (lit "task-list") (fun _ => lit "- [ ] ") x.
Proof.
  intros Hx. pose proof (truthy_nonempty Hx) as Ht.
  split; [|split; [|split]].
  - apply constant_prefix_lineByLine; [now apply literal_no_NL|].
    intros. now rewrite dispatch_blockquote, Ht.
  - apply constant_prefix_lineByLine; [now apply literal_no_NL|].
    intros. now rewrite dispatch_unordered, Ht.
  - assert (Hext :
      mapi (fun index line => numberToString (index + 1) ++ lit ". " ++ line)
           (split NL x)
      = mapi (fun index line => (numberToString (index + 1) ++ lit ". ") ++ line)
             (split NL x)).
    { apply mapiFrom_ext. intros. now rewrite app_assoc. }
    eexists. split.
    + apply produces_intro. intros.
      rewrite dispatch_ordered, Ht, Hext. reflexivity.
    + apply (@prefixed_lines_split
               (fun index => numberToString (index + 1) ++ lit ". ") x).
      intros i Hin. apply in_app_iff in Hin as [Hin|Hin].
      * exact (@numberToString_no_NL _ Hin).
      * revert Hin. now apply literal_no_NL.
  - apply constant_prefix_lineByLine; [now apply literal_no_NL|].
    intros. now rewrite dispatch_task, Ht.
Qed.

(** ** Selecting a whole text *)

Lemma split_total_length (sep : N) (s : jsstring) :
  list_sum (map (fun l => S (length l)) (split sep s)) = S (length s).
Proof.
  induction s as [|c s IH]; simpl; [reflexivity|].
  destruct (N.eqb c sep); simpl; [now rewrite IH|].
  destruct (split sep s) as [|l ls]; simpl in *; lia.
Qed.

Lemma firstn_nth_last {A} (d : A) (ls : list A) :
  ls <> [] ->
  ls = firstn (length ls - 1) ls ++ [nth (length ls - 1) ls d].
Proof.
  induction ls as [|a ls IH]; [congruence|]. intros _.
  destruct ls as [|b ls]; [reflexivity|].
  replace (length (a :: b :: ls) - 1) with (S (length (b :: ls) - 1))
    by (simpl; lia).
  cbn [firstn nth app]. f_equal. apply IH. discriminate.
Qed.

Lemma offsetAt_start (x : jsstring) : offsetAt x 1 1 = 0.
Proof.
  unfold offsetAt.
  assert (0 < length (lines x)).
  { pose proof (@split_not_nil NL x). unfold lines.
    destruct (split NL x); simpl; [congruence | lia]. }
  replace (Nat.min (Nat.max 1 1) (length (lines x))) with 1 by lia.
  reflexivity.
Qed.

Lemma offsetAt_end (x : jsstring) :
  offsetAt x (length (lines x)) (getLineLength x (length (lines x)) + 1)
  = length x.
Proof.
  unfold offsetAt, getLineLength, getLineContent.
  pose proof (@split_not_nil NL x) as Hne.
  pose proof (split_total_length NL x) as Hsum.
  fold (lines x) in Hne, Hsum.
  set (ls := lines x) in *.
  assert (0 < length ls) by (destruct ls; simpl; [congruence | lia]).
  replace (Nat.min (Nat.max (length ls) 1) (length ls)) with (length ls) by lia.
  rewrite (firstn_nth_last [] Hne) in Hsum at 1.
  rewrite map_app, list_sum_app in Hsum. simpl in Hsum.
  clearbody ls. unfold jsstring in *. lia.
Qed.

Lemma getValueInRange_whole (x : jsstring) :
  getValueInRange x (wholeText x) = x.
Proof.
  unfold getValueInRange, wholeText. cbn [startLineNumber startColumn
    endLineNumber endColumn].
  rewrite offsetAt_start, offsetAt_end, Nat.sub_0_r. simpl skipn.
  apply firstn_all.
Qed.

Lemma applyEdit_whole (x y : jsstring) : applyEdit x (wholeText x) y = y.
Proof.
  unfold applyEdit, wholeText. cbn [startLineNumber startColumn
    endLineNumber endColumn].
  rewrite offsetAt_start, offsetAt_end. simpl.
  now rewrite skipn_all, app_nil_r.
Qed.

(** Every text can be the selected text: [produces] speaks about
    worlds that exist. *)
Lemma whole_text_selected (x : jsstring) :
  selected (editing x (wholeText x)) (wholeText x) x.
Proof.
  exists (mkEditor (Some x) (Some (wholeText x)) [] true), x.
  repeat split. apply getValueInRange_whole.
Qed.

(** With the whole text [x] selected, an action that produces [y] leaves
    the document [y]. *)
Lemma produces_document (actionType x y : jsstring) :
  produces actionType x y ->
  documentText (handleMarkdownAction actionType (editing x (wholeText x)))
  = Some y.
Proof.
  intros H. rewrite (H _ _ (whole_text_selected x)).
  unfold editorDo, documentText, editing. cbn [editorRef withEditorRef perform
    model]. now rewrite applyEdit_whole.
Qed.

Lemma produces_functional (actionType x y y' : jsstring) :
  produces actionType x y -> produces actionType x y' -> y = y'.
Proof.
  intros H H'. apply produces_document in H, H'. congruence.
Qed.

(** ** Clear format *)

Lemma dispatch_clear ref selection m x :
  dispatch ref (lit "clear-format") selection m x
  = [ExecuteEdits (Some (lit "clear-format")) selection (clearFormat x)].
Proof. reflexivity. Qed.

(** C2, as the code has it.  Clear-format on the selection
    [**a** _b_ `c` [d](e)] produces [a _b_ c d]: the bold markers, the
    backticks and the link are removed, the underscores stay, since no
    pattern of the action mentions them.  With [*b*] in place of [_b_]
    the result is [a b c d]. *)
Theorem clear_format_keeps_underscores :
  produces (lit "clear-format") (lit "**a** _b_ `c` [d](e)") (lit "a _b_ c d") /\
  produces (lit "clear-format") (lit "**a** *b* `c` [d](e)") (lit "a b c d").
Proof.
  split; apply produces_intro; intros; rewrite dispatch_clear;
    do 2 f_equal; vm_compute; reflexivity.
Qed.

(** ** Headings *)

Lemma lastBefore_cons (prev : option N) (c : N) (run : jsstring) :
  lastBefore (Some c) run = lastBefore prev (c :: run).
Proof.
  unfold lastBefore. simpl. destruct (rev run) as [|d r] eqn:E; reflexivity.
Qed.



Lemma replaceFrom_dead (r : regex) (tmpl : list piece) (s : jsstring) :
  forall (skip : nat) (prev : option N),
    replaceFrom r tmpl false skip prev s = skipn skip s.
Proof.
  induction s as [|c s IH]; intros [|skip] prev; simpl; try reflexivity.
  - now rewrite IH.
  - apply IH.
Qed.

(** Without flag g only the first match is replaced. *)
Lemma replace_first (r : regex) (tmpl : list piece) (s : jsstring) (n : nat)
    (cap : option jsstring) :
  global r = false ->
  matchHere r None s = Some (S n, cap) ->
  replace r tmpl s = expand tmpl cap ++ skipn (S n) s.
Proof.
  intros Hg H. unfold replace. destruct s as [|c s]; simpl; rewrite H.
  - reflexivity.
  - now rewrite Hg, replaceFrom_dead.
Qed.




(** C3, at a selection inside a heading line.  The line is
    [## Hello world], the selection is the word [Hello], the action is
    heading level 2, the level the line already has.  The new text is
    computed from the whole line ([Hello world]) but written over the
    selection only, so the marker stays and the line becomes
    [## Hello world world].  The earlier revision does the same. *)
Theorem heading_over_partial_selection :
  selected helloSelected (mkRange 1 4 1 9) (lit "Hello") /\
  documentText (handleMarkdownAction (lit "heading-2") helloSelected)
  = Some (lit "## Hello world world") /\
  documentText (addHeadingActionRun cursorAfter 2 helloSelected)
  = Some (lit "## Hello world world").
Proof.
  split; [|split].
  - exists (mkEditor (Some (lit "## Hello world")) (Some (mkRange 1 4 1 9))
                     [] true), (lit "## Hello world").
    repeat split.
  - vm_compute. reflexivity.
  - vm_compute. reflexivity.
Qed.

(** Levels 5 and 6 have a key binding, and [handleMarkdownAction] has no
    case for them: the binding does nothing. *)
Lemma heading_5_6_unhandled (w : world) :
  In (lit "markdown-heading-5", lit "heading-5") keyBindings /\
  In (lit "markdown-heading-6", lit "heading-6") keyBindings /\
  handleMarkdownAction (lit "heading-5") w = w /\
  handleMarkdownAction (lit "heading-6") w = w.
Proof.
  split; [|split].
  - vm_compute. tauto.
  - vm_compute. tauto.
  - unfold handleMarkdownAction.
    destruct (editorRef w) as [ed|]; [|now split].
    destruct (getSelection ed); [|now split].
    destruct (getModel ed); now split.
Qed.

(** ** The earlier revision *)

(** The inline bodies of the earlier key bindings do what the cases of
    [handleMarkdownAction] do; levels 5 and 6 exist there only. *)
Lemma earlier_runs_agree (w : world) :
  markdownBoldRun cursorAfter w = handleMarkdownAction (lit "bold") w /\
  markdownItalicRun cursorAfter w = handleMarkdownAction (lit "italic") w /\
  (forall level,
     1 <= level <= 4 ->
     addHeadingActionRun cursorAfter level w
     = handleMarkdownAction (lit "heading-" ++ numberToString level) w).
Proof.
  unfold markdownBoldRun, markdownItalicRun, addHeadingActionRun,
    runOnSelection, handleMarkdownAction.
  destruct (editorRef w) as [ed|]; [|now repeat split].
  destruct (getSelection ed) as [sel|]; [|now repeat split].
  destruct (getModel ed) as [m|]; [|now repeat split].
  split; [reflexivity | split; [reflexivity|]].
  intros level Hl.
  assert (H : level = 1 \/ level = 2 \/ level = 3 \/ level = 4) by lia.
  destruct H as [-> | [-> | [-> | ->]]]; reflexivity.
Qed.

End Claims.

(** * Concrete runs *)

Section Runs.
Import Regex Patterns.

Local Abbreviation run := (handleMarkdownAction untranslated selectInserted).
Local Abbreviation yields := (produces untranslated selectInserted).
Local Abbreviation settled := (settle untranslated selectInserted).

(** Bold on the selection [x], and again on the result. *)
Lemma bold_toggle_round_trip_witness :
  ~ (startsWith (lit "x") (lit "**") = true /\
     endsWith (lit "x") (lit "**") = true) /\
  yields (lit "bold") (lit "x") (lit "**x**") /\
  yields (lit "bold") (lit "**x**") (lit "x").
Proof.
  assert (H : ~ (startsWith (lit "x") (lit "**") = true /\
                 endsWith (lit "x") (lit "**") = true))
    by (intros [H _]; discriminate H).
  split; [exact H|].
  exact (@bold_toggle_round_trip untranslated selectInserted (lit "x") H).
Defined.

(** The same two steps on a document that is just [x]. *)
Example bold_twice_on_document :
  documentText (run (lit "bold") (editing (lit "x") (wholeText (lit "x"))))
  = Some (lit "**x**") /\
  documentText
    (run (lit "bold")
       (run (lit "bold") (editing (lit "x") (wholeText (lit "x")))))
  = Some (lit "x").
Proof. split; vm_compute; reflexivity. Qed.

Lemma italic_strip_branch_witness :
  (startsWith (lit "**x**") (lit "*") = true /\
   endsWith (lit "**x**") (lit "*") = true /\
   1 < length (lit "**x**")) /\
  yields (lit "italic") (lit "**x**") (slice (lit "**x**") 1 (-1)).
Proof.
  assert (H1 : startsWith (lit "**x**") (lit "*") = true) by reflexivity.
  assert (H2 : endsWith (lit "**x**") (lit "*") = true) by reflexivity.
  assert (H3 : 1 < length (lit "**x**")) by (simpl; lia).
  split; [now repeat split|].
  exact (proj1 (italic_strip_branch untranslated selectInserted) _ H1 H2 H3).
Defined.

Lemma list_actions_prefix_every_line_witness :
  twoLines <> [] /\
  lineByLine untranslated selectInserted (lit "blockquote")
             (fun _ => lit "> ") twoLines /\
  lineByLine untranslated selectInserted (lit "unordered-list")
             (fun _ => lit "- ") twoLines /\
  lineByLine untranslated selectInserted (lit "ordered-list")
             (fun index => numberToString (index + 1) ++ lit ". ") twoLines /\
  lineByLine untranslated selectInserted (lit "task-list")
             (fun _ => lit "- [ ] ") twoLines.
Proof.
  assert (H : twoLines <> []) by discriminate.
  split; [exact H|].
  exact (@list_actions_prefix_every_line untranslated selectInserted
           twoLines H).
Defined.

(** Two lines through the four actions. *)
Example two_lines_prefixed :
  documentText (run (lit "blockquote") (editing twoLines (wholeText twoLines)))
  = Some (lit "> a" ++ [NL] ++ lit "> b") /\
  documentText
    (run (lit "unordered-list") (editing twoLines (wholeText twoLines)))
  = Some (lit "- a" ++ [NL] ++ lit "- b") /\
  documentText
    (run (lit "ordered-list") (editing twoLines (wholeText twoLines)))
  = Some (lit "1. a" ++ [NL] ++ lit "2. b") /\
  documentText (run (lit "task-list") (editing twoLines (wholeText twoLines)))
  = Some (lit "- [ ] a" ++ [NL] ++ lit "- [ ] b").
Proof. repeat split; vm_compute; reflexivity. Qed.

Lemma action_without_target_is_noop_witness :
  (editorRef unmounted = None \/
   exists ed, editorRef unmounted = Some ed /\
              (getSelection ed = None \/ getModel ed = None)) /\
  run (lit "bold") unmounted = unmounted.
Proof.
  assert (H : editorRef unmounted = None \/
              exists ed, editorRef unmounted = Some ed /\
                         (getSelection ed = None \/ getModel ed = None))
    by (left; reflexivity).
  split; [exact H|].
  exact (@action_without_target_is_noop untranslated selectInserted
           (lit "bold") unmounted H).
Defined.

(** The other two ways of missing a target: no selection, no model. *)
Example action_without_selection_or_model :
  run (lit "table") (mkWorld (Some (mkEditor (Some (lit "x")) None [] true))
                             false [] false [] [] [] [] false)
  = mkWorld (Some (mkEditor (Some (lit "x")) None [] true))
            false [] false [] [] [] [] false /\
  run (lit "horizontal-rule")
      (mkWorld (Some (mkEditor None (Some (mkRange 1 1 1 1)) [] true))
               false [] false [] [] [] [] false)
  = mkWorld (Some (mkEditor None (Some (mkRange 1 1 1 1)) [] true))
            false [] false [] [] [] [] false.
Proof. split; reflexivity. Qed.

Lemma composition_suppresses_changes_witness :
  forallb (fun e => negb (isCompositionEnd e)) composingEvents = true /\
  isComposing (deliverAll composingEvents (deliver CompositionStart typing))
  = true /\
  committed
    (deliver (ChangeModelContent (lit "nih"))
       (deliverAll composingEvents (deliver CompositionStart typing)))
  = committed (deliverAll composingEvents (deliver CompositionStart typing)) /\
  committed
    (deliver CompositionEnd
       (deliverAll composingEvents (deliver CompositionStart typing)))
  = committed (deliverAll composingEvents (deliver CompositionStart typing))
    ++ [editorValue
          (deliverAll composingEvents (deliver CompositionStart typing))] /\
  isComposing
    (deliver CompositionEnd
       (deliverAll composingEvents (deliver CompositionStart typing)))
  = false /\
  (forall w', committed (deliver BlurEditorText w')
              = committed w' ++ [editorValue w']).
Proof.
  assert (H : forallb (fun e => negb (isCompositionEnd e)) composingEvents
              = true) by reflexivity.
  split; [exact H|].
  exact (@composition_suppresses_changes typing composingEvents (lit "nih") H).
Defined.

(** A composition from start to end: only the blur and the end commit;
    once it has ended, changes commit again. *)
Example composition_run :
  committed
    (deliverAll [CompositionStart; ChangeModelContent (lit "ni");
                 ChangeModelContent (lit "nih"); BlurEditorText;
                 ChangeModelContent (lit "niha"); CompositionEnd;
                 ChangeModelContent (lit "nihao!")] typing)
  = [lit "nih"; lit "niha"; lit "nihao!"].
Proof. vm_compute. reflexivity. Qed.

Lemma upChange_rejects_large_file_witness :
  (5120000 < size bigFile)%N /\
  upChange [bigFile] someText = setUploadValue [] (alert tooLarge someText) /\
  requests (upChange [bigFile] someText) = requests someText /\
  (forall files w', exists sent,
      requests (upChange files w') = requests w' ++ sent /\
      ~ In bigFile (map file sent)).
Proof.
  assert (H : (5120000 < size bigFile)%N) by reflexivity.
  split; [exact H|].
  exact (@upChange_rejects_large_file bigFile someText H).
Defined.

(** The heading action with the cursor in the line [## Hello world]:
    level 2 removes the marker, level 3 replaces it. *)
Example heading_with_cursor :
  documentText
    (run (lit "heading-2") (editing (lit "## Hello world") (mkRange 1 4 1 4)))
  = Some (lit "Hello world") /\
  documentText
    (run (lit "heading-3") (editing (lit "## Hello world") (mkRange 1 4 1 4)))
  = Some (lit "### Hello world").
Proof. split; vm_compute; reflexivity. Qed.

(** C1 as stated fails: a file of 5,000,001 bytes is above 5,000,000
    and is uploaded without an alert. *)
Lemma upChange_uploads_5000001_bytes :
  (5000000 < size mediumFile)%N /\
  alerts (upChange [mediumFile] someText) = [] /\
  uploadValue (upChange [mediumFile] someText) = uploadValue someText /\
  requests (upChange [mediumFile] someText)
  = [mkRequest mediumFile (InsertAt mediumFile (mkRange 1 1 1 1)) ConsoleError].
Proof. repeat split. Qed.

Lemma failed_upload_applies_no_edit_witness :
  failed refused /\
  (forall w, editorRef (settled (insertPhoto) refused w) = editorRef w) /\
  (forall files w,
     documentText (settled insertPhoto refused (upChange files w))
     = documentText w) /\
  (forall files w,
     documentText (settled insertPhoto refused (onDrop files w))
     = documentText w) /\
  (forall files w,
     documentText (settled insertPhoto refused
                     (handlePaste selectInserted files w))
     = documentText (match files with
                     | [_] => editorDo selectInserted (Trigger (lit "undo")) w
                     | _ => w
                     end)).
Proof.
  assert (H : failed refused) by (split; [reflexivity | discriminate]).
  split; [exact H|].
  exact (@failed_upload_applies_no_edit untranslated selectInserted
           insertPhoto refused H).
Defined.

(** C4 as stated fails on the paste path: the text is [b], the previous
    text [a] is on the undo stack, one file is pasted and the request is
    rejected; the document is [a] afterwards. *)
Lemma paste_failure_changes_document :
  requests (handlePaste selectInserted [photo] afterTyping)
  = [mkRequest photo (PasteInsert photo) ConsoleError] /\
  failed offline /\
  documentText afterTyping = Some (lit "b") /\
  documentText
    (settled (mkRequest photo (PasteInsert photo) ConsoleError) offline
       (handlePaste selectInserted [photo] afterTyping))
  = Some (lit "a").
Proof. repeat split. Qed.

(** C2 as stated fails: clear-format on [**a** _b_ `c` [d](e)] does not
    produce [a b c d]. *)
Lemma clear_format_does_not_strip_underscores :
  ~ yields (lit "clear-format") (lit "**a** _b_ `c` [d](e)") (lit "a b c d").
Proof.
  intros H. apply produces_document in H. vm_compute in H. discriminate H.
Qed.

(** C10 as stated fails: bold applied twice to [*] does not yield the
    empty string. *)
Lemma bold_twice_on_star_is_not_empty :
  ~ exists y, yields (lit "bold") (lit "*") y /\ yields (lit "bold") y [].
Proof.
  intros (y & H1 & H2).
  apply produces_document in H1. vm_compute in H1.
  injection H1 as <-.
  apply produces_document in H2. vm_compute in H2. discriminate H2.
Qed.

(** The two steps on a document that is just [*]. *)
Example bold_twice_on_star :
  documentText (run (lit "bold") (editing (lit "*") (wholeText (lit "*"))))
  = Some (lit "*****") /\
  documentText
    (run (lit "bold")
       (run (lit "bold") (editing (lit "*") (wholeText (lit "*")))))
  = Some (lit "*").
Proof. split; vm_compute; reflexivity. Qed.

End Runs.

(** * Further properties of the component *)

Section Further.
Import Regex Patterns.

Variable t : jsstring -> jsstring.
Variable cursorAfter : call -> editor -> option Range.

Local Abbreviation handleMarkdownAction := (handleMarkdownAction t cursorAfter).
Local Abbreviation dispatch := (dispatch t).
Local Abbreviation editorDo := (editorDo cursorAfter).
Local Abbreviation editorDoAll := (editorDoAll cursorAfter).
Local Abbreviation settle := (settle t cursorAfter).
Local Abbreviation handlePaste := (handlePaste cursorAfter).
Local Abbreviation produces := (produces t cursorAfter).

(** ** The other toggles *)

Lemma dispatch_strikethrough ref selection m x :
  dispatch ref (lit "strikethrough") selection m x
  = if startsWith x (lit "~~") && endsWith x (lit "~~")
    then [ExecuteEdits (Some (lit "strikethrough")) selection (slice x 2 (-2))]
    else [ExecuteEdits (Some (lit "strikethrough")) selection
            (lit "~~" ++ x ++ lit "~~")].
Proof. reflexivity. Qed.

Lemma dispatch_inline_code ref selection m x :
  dispatch ref (lit "inline-code") selection m x
  = if startsWith x (lit "`") && endsWith x (lit "`") && (1 <? length x)
    then [ExecuteEdits (Some (lit "inline-code")) selection (slice x 1 (-1))]
    else [ExecuteEdits (Some (lit "inline-code")) selection
            (lit "`" ++ x ++ lit "`")].
Proof. reflexivity. Qed.

(** A selection wrapped in a one-character marker passes the strip test
    of the italic and inline-code actions, and the strip gives the
    selection back. *)
Lemma wrapped_once (marker : N) (x : jsstring) :
  startsWith ([marker] ++ x ++ [marker]) [marker] = true /\
  endsWith ([marker] ++ x ++ [marker]) [marker] = true /\
  (1 <? length ([marker] ++ x ++ [marker])) = true /\
  slice ([marker] ++ x ++ [marker]) 1 (-1) = x.
Proof.
  split; [apply startsWith_app|].
  split; [rewrite app_assoc; apply endsWith_app|].
  split; [apply Nat.ltb_lt; rewrite !length_app; simpl; lia|].
  apply (@slice_strip [marker] x [marker]). discriminate.
Qed.

(** Strikethrough toggles like bold: a selection that does not both
    start and end with [~~] is wrapped, and the wrapped selection is
    unwrapped to what it was. *)
Theorem strikethrough_round_trip (x : jsstring) :
  ~ (startsWith x (lit "~~") = true /\ endsWith x (lit "~~") = true) ->
  produces (lit "strikethrough") x (lit "~~" ++ x ++ lit "~~") /\
  produces (lit "strikethrough") (lit "~~" ++ x ++ lit "~~") x.
Proof.
  intros H. split; apply produces_intro; intros;
    rewrite dispatch_strikethrough.
  - destruct (startsWith x (lit "~~")), (endsWith x (lit "~~"));
      simpl; tauto.
  - rewrite (startsWith_app (lit "~~")).
    rewrite (app_assoc (lit "~~") x), endsWith_app, <- app_assoc.
    simpl andb. cbv iota. do 3 f_equal.
    apply (@slice_strip (lit "~~") x (lit "~~")). discriminate.
Qed.

(** Italic: a selection that fails the strip test (it does not start
    with [*], or does not end with [*], or is a single character) is
    wrapped in [*], and italic on the wrapped selection gives it back.
    The length guard makes this hold for the selection [*] too. *)
Theorem italic_round_trip (x : jsstring) :
  ~ (startsWith x (lit "*") = true /\ endsWith x (lit "*") = true /\
     1 < length x) ->
  produces (lit "italic") x (lit "*" ++ x ++ lit "*") /\
  produces (lit "italic") (lit "*" ++ x ++ lit "*") x.
Proof.
  intros H. destruct (wrapped_once 42 x) as (Hs & He & Hl & Hx).
  split; apply produces_intro; intros; rewrite dispatch_italic.
  - destruct (startsWith x (lit "*")), (endsWith x (lit "*")),
      (Nat.ltb_spec 1 (length x)); simpl; tauto.
  - change (lit "*") with [42%N]. now rewrite Hs, He, Hl, Hx.
Qed.

(** Inline code: the same round trip with the backtick. *)
Theorem inline_code_round_trip (x : jsstring) :
  ~ (startsWith x (lit "`") = true /\ endsWith x (lit "`") = true /\
     1 < length x) ->
  produces (lit "inline-code") x (lit "`" ++ x ++ lit "`") /\
  produces (lit "inline-code") (lit "`" ++ x ++ lit "`") x.
Proof.
  intros H. destruct (wrapped_once 96 x) as (Hs & He & Hl & Hx).
  split; apply produces_intro; intros; rewrite dispatch_inline_code.
  - destruct (startsWith x (lit "`")), (endsWith x (lit "`")),
      (Nat.ltb_spec 1 (length x)); simpl; tauto.
  - change (lit "`") with [96%N]. now rewrite Hs, He, Hl, Hx.
Qed.

(** ** Identifiers without a case *)

Lemma streq_neq (a b : jsstring) : a <> b -> streq a b = false.
Proof.
  intros H. destruct (streq a b) eqn:E; [|reflexivity].
  now apply streq_eq in E.
Qed.

(** An action identifier that is none of the nineteen the [switch]
    knows changes nothing, whatever the state of the editor. *)
Theorem unhandled_action_is_noop (actionType : jsstring) (w : world) :
  ~ In actionType handledActions ->
  handleMarkdownAction actionType w = w.
Proof.
  intros H.
  assert (Hd : forall ref selection m x,
             dispatch ref actionType selection m x = []).
  { intros. unfold dispatch. cbv zeta.
    repeat match goal with
    | |- context [streq actionType ?l] =>
        rewrite (@streq_neq actionType l)
          by (intros ->; apply H; vm_compute; tauto)
    end.
    reflexivity. }
  unfold handleMarkdownAction.
  destruct (editorRef w) as [ed|]; [|reflexivity].
  destruct (getSelection ed); [|reflexivity].
  destruct (getModel ed); [|reflexivity].
  now rewrite Hd.
Qed.

(** ** Uploads: what is sent, and what happens when the promise settles *)

Lemma dropLoop_spec (ed : editor) (selection : Range) (files : list File)
    (w : world) :
  getSelection ed = Some selection ->
  dropLoop ed files w
  = mkWorld (editorRef w) (isComposing w) (committed w)
            (match files with [] => uploading w | _ :: _ => true end)
            (uploadValue w) (alerts w) (console w)
            (requests w
             ++ map (fun f => mkRequest f (InsertAt f selection) ConsoleError)
                    files)
            (defaultPrevented w).
Proof.
  intros Hsel. revert w.
  induction files as [|f rest IH]; intros w; cbn [dropLoop map].
  - rewrite app_nil_r. now destruct w.
  - rewrite Hsel, IH.
    cbn [uploadImage post setUploading editorRef isComposing committed
         uploading uploadValue alerts console requests defaultPrevented].
    rewrite <- app_assoc. cbn [app]. now destruct rest.
Qed.

(** Dropping files on a mounted editor with a selection sends one
    request per file, in order, each to be inserted at that selection;
    there is no size test on this path and no alert.  The default action
    of the event is prevented and the uploading flag is raised as soon
    as there is a file. *)
Theorem onDrop_sends_every_file (files : list File) (w : world)
    (ed : editor) (selection : Range) :
  editorRef w = Some ed -> getSelection ed = Some selection ->
  onDrop files w
  = mkWorld (editorRef w) (isComposing w) (committed w)
            (match files with [] => uploading w | _ :: _ => true end)
            (uploadValue w) (alerts w) (console w)
            (requests w
             ++ map (fun f => mkRequest f (InsertAt f selection) ConsoleError)
                    files)
            true.
Proof.
  intros Href Hsel. unfold onDrop. cbn [preventDefault editorRef].
  rewrite Href, (@dropLoop_spec ed selection files _ Hsel).
  unfold preventDefault. cbn [editorRef isComposing committed uploading
    uploadValue alerts console requests defaultPrevented].
  now rewrite Href.
Qed.



(** A paste is taken up only when the clipboard holds exactly one file.
    Then, with the editor mounted, the editor is sent an undo, the
    uploading flag is raised and the file is sent, whatever its size. *)
Lemma handlePaste_one_file :
  (forall files w, length files <> 1 -> handlePaste files w = w) /\
  (forall f w ed,
     editorRef w = Some ed ->
     handlePaste [f] w
     = post (mkRequest f (PasteInsert f) ConsoleError)
         (setUploading true (editorDo (Trigger (lit "undo")) w))).
Proof.
  split.
  - intros [|f [|g files]] w H; try reflexivity. now contradiction H.
  - intros f w ed Href. unfold handlePaste. now rewrite Href.
Qed.


(** When the request fails, no alert is shown and the uploading flag is
    left as it is: the translated message goes to the console, after the
    rejection reason if the promise was rejected.  So an upload from the
    button that fails leaves the flag up. *)
Theorem failed_upload_keeps_uploading (r : request) (o : outcome) (w : world) :
  failed o ->
  alerts (settle r o w) = alerts w /\
  uploading (settle r o w) = uploading w /\
  console (settle r o w)
  = console w
    ++ match o with
       | Rejected reason => [reason; t (lit "upload.failed")]
       | Resolved _ _ => [t (lit "upload.failed")]
       end /\
  (forall f ed selection,
     editorRef w = Some ed -> getSelection ed = Some selection ->
     oversized f = false ->
     uploading (settle r o (upChange [f] w)) = true).
Proof.
  intros Hf.
  assert (Hgen : forall w', alerts (settle r o w') = alerts w' /\
                            uploading (settle r o w') = uploading w' /\
                            console (settle r o w')
                            = console w'
                              ++ match o with
                                 | Rejected reason =>
                                     [reason; t (lit "upload.failed")]
                                 | Resolved _ _ => [t (lit "upload.failed")]
                                 end).
  { intros w'. destruct o as [data error | reason]; cbn [failed] in Hf.
    - destruct Hf as [-> Herr]. destruct error; [|congruence].
      unfold settle. now destruct (showAlert r).
    - unfold settle. destruct (showAlert r).
      cbn [callShowAlert consoleError alerts uploading console].
      repeat split. now rewrite <- app_assoc. }
  destruct (Hgen w) as (Ha & Hu & Hc). repeat split; try assumption.
  intros f ed selection Href Hsel Hsmall.
  destruct (Hgen (upChange [f] w)) as (_ & -> & _).
  cbn [upChange]. unfold oversized in Hsmall. now rewrite Hsmall, Href, Hsel.
Qed.

(** ** The size limit and the three ways to upload *)

Lemma editorDo_requests (c : call) (w : world) :
  requests (editorDo c w) = requests w /\ alerts (editorDo c w) = alerts w.
Proof. unfold editorDo. now destruct (editorRef w). Qed.

(** The size test guards the upload button only.  A file above the
    threshold is turned away by the button, but the same file dropped
    on the editor or pasted into it is sent, and no alert is shown. *)
Theorem size_limit_only_on_button (f : File) (w : world) (ed : editor)
    (sel : Range) :
  oversized f = true ->
  editorRef w = Some ed -> getSelection ed = Some sel ->
  requests (upChange [f] w) = requests w /\
  requests (onDrop [f] w)
  = requests w ++ [mkRequest f (InsertAt f sel) ConsoleError] /\
  alerts (onDrop [f] w) = alerts w /\
  requests (handlePaste [f] w)
  = requests w ++ [mkRequest f (PasteInsert f) ConsoleError] /\
  alerts (handlePaste [f] w) = alerts w.
Proof.
  intros Hbig Href Hsel.
  split; [cbn [upChange]; unfold oversized in Hbig; now rewrite Hbig|].
  rewrite (@onDrop_sends_every_file [f] w ed sel Href Hsel).
  cbn [requests alerts map]. split; [reflexivity|]. split; [reflexivity|].
  rewrite (proj2 handlePaste_one_file f w ed Href).
  cbn [post setUploading requests alerts].
  destruct (editorDo_requests (Trigger (lit "undo")) w) as [-> ->].
  now split.
Qed.

(** ** The bridge and the synchronisation effect *)

Lemma deliver_idle_in_sync (e : event) (w : world) :
  isComposing (deliver e w) = false ->
  committed (deliver e w) = committed w ++ [editorValue (deliver e w)].
Proof.
  destruct e; cbn [deliver].
  - discriminate.
  - reflexivity.
  - unfold onDidChangeModelContent.
    destruct (isComposing (setModelText text w)) eqn:E; cbn [negb].
    + now rewrite E.
    + intros _. cbn [setContent committed]. f_equal.
      unfold setModelText. now destruct (editorRef w).
  - reflexivity.
Qed.

(** Whenever the bridge is idle after an event, that event has
    committed the text the editor then holds: outside a composition the
    parent's content and the editor's text agree. *)
Theorem idle_bridge_is_in_sync (es : list event) (e : event) (w : world) :
  isComposing (deliverAll (es ++ [e]) w) = false ->
  last (committed (deliverAll (es ++ [e]) w)) []
  = editorValue (deliverAll (es ++ [e]) w).
Proof.
  unfold deliverAll. rewrite fold_left_app. cbn [fold_left].
  intros H. rewrite (deliver_idle_in_sync _ _ H). apply last_last.
Qed.



(** ** Documents, lines and ranges *)

Lemma join_cons (sep : N) (l : jsstring) (ls : list jsstring) :
  ls <> [] -> join sep (l :: ls) = l ++ sep :: join sep ls.
Proof. destruct ls; [congruence | reflexivity]. Qed.

Lemma join_split (sep : N) (s : jsstring) : join sep (split sep s) = s.
Proof.
  induction s as [|c s IH]; [reflexivity|]. cbn [split].
  destruct (N.eqb_spec c sep) as [->|_].
  - rewrite join_cons by apply split_not_nil. now rewrite IH.
  - pose proof (@split_not_nil sep s) as Hne.
    destruct (split sep s) as [|l ls]; [congruence|].
    destruct ls as [|l' ls].
    + cbn [join] in *. now rewrite IH.
    + rewrite join_cons in IH by discriminate.
      rewrite join_cons by discriminate. cbn [app]. now rewrite IH.
Qed.

Lemma document_join (above : list jsstring) (line : jsstring)
    (below : list jsstring) :
  document above line below = join NL (above ++ line :: below).
Proof.
  unfold document, linesBefore, linesAfter.
  induction above as [|a above IH]; cbn [map concat app].
  - induction below as [|b below IHb]; cbn [map concat].
    + now rewrite app_nil_r.
    + rewrite join_cons by discriminate. cbn [app].
      destruct below as [|b' below].
      * cbn [map concat join]. now rewrite app_nil_r.
      * rewrite join_cons in IHb by discriminate.
        apply app_inv_head in IHb. now rewrite IHb.
  - rewrite join_cons by (destruct above; discriminate).
    rewrite <- IH. rewrite <- !app_assoc. reflexivity.
Qed.

Lemma document_lines (above : list jsstring) (line : jsstring)
    (below : list jsstring) :
  Forall lineFree (above ++ line :: below) ->
  lines (document above line below) = above ++ line :: below.
Proof.
  intros H. unfold lines. rewrite document_join.
  apply (@split_join NL); [intros E; now destruct above | exact H].
Qed.

Lemma linesBefore_length (above : list jsstring) :
  length (linesBefore above) = list_sum (map (fun l => S (length l)) above).
Proof.
  unfold linesBefore. induction above as [|a above IH]; [reflexivity|].
  cbn [map concat list_sum]. rewrite length_app, length_app, IH.
  simpl. lia.
Qed.

Lemma document_offsetAt (above : list jsstring) (line : jsstring)
    (below : list jsstring) (c : nat) :
  Forall lineFree (above ++ line :: below) ->
  offsetAt (document above line below) (S (length above)) (S c)
  = length (linesBefore above) + Nat.min c (length line).
Proof.
  intros H. unfold offsetAt. rewrite (document_lines _ _ _ H).
  rewrite length_app. cbn [length].
  replace (Nat.min (Nat.max (S (length above)) 1)
                   (length above + S (length below)))
    with (S (length above)) by lia.
  replace (S (length above) - 1) with (length above) by lia.
  rewrite firstn_app, firstn_all, Nat.sub_diag. cbn [firstn].
  rewrite app_nil_r, app_nth2, Nat.sub_diag by lia. cbn [nth].
  rewrite linesBefore_length. f_equal. f_equal. lia.
Qed.

Lemma document_getLineContent (above : list jsstring) (line : jsstring)
    (below : list jsstring) :
  Forall lineFree (above ++ line :: below) ->
  getLineContent (document above line below) (S (length above)) = line.
Proof.
  intros H. unfold getLineContent. rewrite (document_lines _ _ _ H).
  replace (S (length above) - 1) with (length above) by lia.
  now rewrite app_nth2, Nat.sub_diag by lia.
Qed.

(** The text in a range of one line, and the document after an edit of
    that range. *)
Lemma document_getValueInRange (above : list jsstring) (line : jsstring)
    (below : list jsstring) (a b : nat) :
  Forall lineFree (above ++ line :: below) ->
  a <= b <= length line ->
  getValueInRange (document above line below) (span above a b)
  = firstn (b - a) (skipn a line).
Proof.
  intros H Hab. unfold getValueInRange, span.
  cbn [startLineNumber startColumn endLineNumber endColumn].
  rewrite !(document_offsetAt _ _ _ _ H), !Nat.min_l by lia.
  replace (length (linesBefore above) + b - (length (linesBefore above) + a))
    with (b - a) by lia.
  unfold document. rewrite skipn_app.
  rewrite (skipn_all2 (linesBefore above)) by lia. cbn [app].
  replace (length (linesBefore above) + a - length (linesBefore above))
    with a by lia.
  rewrite skipn_app, firstn_app.
  replace (b - a - length (skipn a line)) with 0
    by (rewrite length_skipn; lia).
  cbn [firstn]. now rewrite app_nil_r.
Qed.

Lemma document_applyEdit (above : list jsstring) (line : jsstring)
    (below : list jsstring) (a b : nat) (text : jsstring) :
  Forall lineFree (above ++ line :: below) ->
  a <= b <= length line ->
  applyEdit (document above line below) (span above a b) text
  = document above (firstn a line ++ text ++ skipn b line) below.
Proof.
  intros H Hab. unfold applyEdit, span.
  cbn [startLineNumber startColumn endLineNumber endColumn].
  rewrite !(document_offsetAt _ _ _ _ H), !Nat.min_l by lia.
  rewrite Nat.max_r by lia.
  unfold document.
  rewrite firstn_app, (firstn_all2 (linesBefore above)) by lia.
  replace (length (linesBefore above) + a - length (linesBefore above))
    with a by lia.
  rewrite firstn_app.
  replace (a - length line) with 0 by lia. cbn [firstn].
  rewrite skipn_app, (skipn_all2 (linesBefore above)) by lia. cbn [app].
  replace (length (linesBefore above) + b - length (linesBefore above))
    with b by lia.
  rewrite skipn_app.
  replace (b - length line) with 0 by lia. cbn [skipn].
  now rewrite app_nil_r, <- !app_assoc.
Qed.



Lemma holds_edit (w : world) (doc : jsstring) (selection r : Range)
    (source : option jsstring) (text : jsstring) :
  holds w doc selection ->
  documentText (editorDo (ExecuteEdits source r text) w)
  = Some (applyEdit doc r text).
Proof.
  intros (ed & Href & Hm & Hsel). unfold editorDo, documentText.
  rewrite Href. cbn [withEditorRef editorRef perform].
  unfold getModel in Hm. now rewrite Hm.
Qed.





(** ** Templates and the selection they leave *)

Lemma lineFree_app (a b : jsstring) :
  lineFree a -> lineFree b -> lineFree (a ++ b).
Proof.
  unfold lineFree. intros Ha Hb Hin.
  apply in_app_iff in Hin as [Hin|Hin]; [exact (Ha Hin) | exact (Hb Hin)].
Qed.

Lemma lineFree_parts (a b : jsstring) :
  lineFree (a ++ b) -> lineFree a /\ lineFree b.
Proof.
  unfold lineFree. intros H.
  split; intros Hin; apply H, in_app_iff; [now left | now right].
Qed.

Lemma lines_replace (above : list jsstring) (line line' : jsstring)
    (below : list jsstring) :
  Forall lineFree (above ++ line :: below) -> lineFree line' ->
  Forall lineFree (above ++ line' :: below).
Proof.
  intros H Hl. apply Forall_app in H as [Ha Hb].
  apply Forall_app. split; [exact Ha|].
  inversion Hb; subst. now constructor.
Qed.

Lemma lines_line (above : list jsstring) (line : jsstring)
    (below : list jsstring) :
  Forall lineFree (above ++ line :: below) -> lineFree line.
Proof.
  intros H. apply Forall_app in H as [_ Hb]. now inversion Hb.
Qed.

Lemma skipn_exact {A} (p q : list A) (n : nat) :
  n = length p -> skipn n (p ++ q) = q.
Proof. intros ->. now rewrite skipn_app, skipn_all, Nat.sub_diag. Qed.

Lemma firstn_exact {A} (p q : list A) (n : nat) :
  n = length p -> firstn n (p ++ q) = p.
Proof.
  intros ->. now rewrite firstn_app, firstn_all, Nat.sub_diag, app_nil_r.
Qed.

(** The selected text when the selection is the stretch [x] of a line. *)
Lemma document_selected (above : list jsstring) (pre x post : jsstring)
    (below : list jsstring) :
  Forall lineFree (above ++ (pre ++ x ++ post) :: below) ->
  getValueInRange (document above (pre ++ x ++ post) below)
    (span above (length pre) (length pre + length x))
  = x.
Proof.
  intros H. rewrite (document_getValueInRange _ _ _ H)
    by (rewrite !length_app; lia).
  rewrite skipn_exact by reflexivity.
  apply firstn_exact. lia.
Qed.

Lemma document_replaced (above : list jsstring) (pre x post : jsstring)
    (below : list jsstring) (text : jsstring) :
  Forall lineFree (above ++ (pre ++ x ++ post) :: below) ->
  applyEdit (document above (pre ++ x ++ post) below)
    (span above (length pre) (length pre + length x)) text
  = document above (pre ++ text ++ post) below.
Proof.
  intros H. rewrite (document_applyEdit _ _ _ text H)
    by (rewrite !length_app; lia).
  rewrite firstn_exact by reflexivity.
  rewrite (app_assoc pre x post), skipn_exact by (rewrite length_app; lia).
  reflexivity.
Qed.

Lemma handle_holds (actionType : jsstring) (w : world) (doc : jsstring)
    (selection : Range) :
  holds w doc selection ->
  handleMarkdownAction actionType w
  = editorDoAll
      (dispatch (editorRef w) actionType selection doc
                (getValueInRange doc selection)) w.
Proof.
  intros (ed & Href & Hm & Hsel). unfold handleMarkdownAction.
  now rewrite Href, Hsel, Hm.
Qed.

(** An edit followed by a placement of the selection and a focus. *)
Lemma edit_select_focus (w : world) (doc : jsstring) (sel r r' : Range)
    (source : option jsstring) (text : jsstring) :
  holds w doc sel ->
  exists ed',
    editorRef (editorDoAll [ExecuteEdits source r text; SetSelection r'; Focus]
                 w) = Some ed' /\
    getModel ed' = Some (applyEdit doc r text) /\
    getSelection ed' = Some r' /\ focused ed' = true.
Proof.
  intros (ed & Href & Hm & Hsel). unfold getModel in Hm.
  unfold editorDoAll, editorDo. cbn [fold_left].
  rewrite Href. cbn [withEditorRef editorRef perform].
  rewrite Hm. cbn [model selection undoStack focused].
  eexists. repeat split.
Qed.

Lemma dispatch_link ref selection m x :
  dispatch ref (lit "link") selection m x
  = [ExecuteEdits (Some (lit "link")) selection
       (if truthy x
        then lit "[" ++ x ++ lit "](url)"
        else lit "[" ++ orElse (t (lit "link.placeholder")) linkPlaceholder
             ++ lit "](url)");
     SetSelection
       (if truthy x
        then mkRange (startLineNumber selection)
                     (startColumn selection + length x + 3)
                     (endLineNumber selection)
                     (startColumn selection + length x + 6)
        else mkRange (startLineNumber selection)
                     (startColumn selection + 1)
                     (startLineNumber selection)
                     (startColumn selection + 1
                      + length (orElse (t (lit "link.placeholder"))
                                       linkPlaceholder)));
     Focus].
Proof. reflexivity. Qed.

(** The link action on a stretch [x] of one line.  A non-empty [x]
    becomes [[x](url)] and the selection is moved onto [url]; with
    nothing selected the template [[placeholder](url)] is inserted and
    the selection is moved onto the placeholder (the translation of
    [link.placeholder], or the built-in text).  The editor has the
    focus afterwards, and the rest of the document is as it was. *)
Theorem link_selects_what_to_type (above : list jsstring)
    (pre x post : jsstring) (below : list jsstring) (w : world) :
  let placeholder := orElse (t (lit "link.placeholder")) linkPlaceholder in
  let linkText := if truthy x then x else placeholder in
  let doc' :=
    document above (pre ++ (lit "[" ++ linkText ++ lit "](url)") ++ post)
             below in
  Forall lineFree (above ++ (pre ++ x ++ post) :: below) ->
  lineFree placeholder ->
  holds w (document above (pre ++ x ++ post) below)
          (span above (length pre) (length pre + length x)) ->
  exists ed' selection',
    editorRef (handleMarkdownAction (lit "link") w) = Some ed' /\
    getModel ed' = Some doc' /\
    getSelection ed' = Some selection' /\
    focused ed' = true /\
    getValueInRange doc' selection'
    = if truthy x then lit "url" else placeholder.
Proof.
  intros placeholder linkText doc' Hfree Hph Hw.
  rewrite (handle_holds _ Hw), (document_selected _ _ _ _ _ Hfree).
  rewrite dispatch_link. fold placeholder.
  assert (Hx := lines_line _ _ _ Hfree).
  apply lineFree_parts in Hx as [Hpre Hx].
  apply lineFree_parts in Hx as [Hx Hpost].
  assert (Hlink : lineFree linkText)
    by (unfold linkText; now destruct (truthy x)).
  assert (Hfree' : Forall lineFree
            (above ++ (pre ++ (lit "[" ++ linkText ++ lit "](url)") ++ post)
                   :: below)).
  { apply (lines_replace _ _ _ Hfree).
    repeat apply lineFree_app; try assumption; now apply literal_no_NL. }
  subst doc' linkText.
  destruct (truthy x).
  - destruct (edit_select_focus
                (span above (length pre) (length pre + length x))
                (span above (length pre + length x + 3)
                      (length pre + length x + 6))
                (Some (lit "link")) (lit "[" ++ x ++ lit "](url)") Hw)
      as (ed' & Href' & Hm' & Hsel' & Hfoc').
    rewrite (document_replaced _ _ _ _ _ _ Hfree) in Hm'.
    exists ed'. eexists. repeat split; try eassumption.
    rewrite (document_getValueInRange _ _ _ Hfree')
      by (rewrite !length_app; cbn [length lit map
            String.list_ascii_of_string]; lia).
    replace (pre ++ (lit "[" ++ x ++ lit "](url)") ++ post)
      with ((pre ++ lit "[" ++ x ++ lit "](") ++ lit "url" ++ lit ")" ++ post)
      by (rewrite <- !app_assoc; reflexivity).
    rewrite skipn_exact
      by (rewrite !length_app; cbn [length lit map
            String.list_ascii_of_string]; lia).
    apply firstn_exact. cbn. lia.
  - destruct (edit_select_focus
                (span above (length pre) (length pre + length x))
                (span above (length pre + 1)
                      (length pre + 1 + length placeholder))
                (Some (lit "link")) (lit "[" ++ placeholder ++ lit "](url)") Hw)
      as (ed' & Href' & Hm' & Hsel' & Hfoc').
    rewrite (document_replaced _ _ _ _ _ _ Hfree) in Hm'.
    exists ed'. eexists. repeat split; try eassumption.
    rewrite (document_getValueInRange _ _ _ Hfree')
      by (rewrite !length_app; cbn [length lit map
            String.list_ascii_of_string]; lia).
    replace (pre ++ (lit "[" ++ placeholder ++ lit "](url)") ++ post)
      with ((pre ++ lit "[") ++ placeholder ++ lit "](url)" ++ post)
      by (rewrite <- !app_assoc; reflexivity).
    rewrite skipn_exact
      by (rewrite !length_app; cbn [length lit map
            String.list_ascii_of_string]; lia).
    apply firstn_exact. lia.
Qed.








(** ** Indentation *)

(** A greedy quantifier also stops at its upper bound, whatever the
    next character is. *)
Lemma quant_greedy_bounded (p : N -> bool) (run s : jsstring) :
  forall (lo hi : nat) (prev : option N)
         (k : option N -> jsstring -> option result) (res : result),
    Forall (fun c => p c = true) run ->
    lo <= length run <= hi ->
    (length run = hi \/
     match s with c :: _ => p c = false | [] => True end) ->
    k (lastBefore prev run) s = Some res ->
    quant p true lo (Some hi) prev (run ++ s) k = Some res.
Proof.
  induction run as [|c run IH]; intros lo hi prev k res Hall Hb Hnext Hk.
  - simpl in Hb. assert (lo = 0) by lia. subst lo.
    destruct s as [|d s]; simpl; [exact Hk|].
    destruct Hnext as [<- | Hd].
    + cbn [hasRoom]. rewrite andb_false_r. exact Hk.
    + rewrite Hd. exact Hk.
  - inversion Hall as [|? ? Hc Hrun]; subst.
    simpl in Hb. destruct hi as [|hi]; [lia|].
    cbn [app quant]. rewrite Hc. cbn [hasRoom andb option_map pred].
    rewrite (IH (pred lo) hi (Some c) k res); try assumption.
    + reflexivity.
    + lia.
    + destruct Hnext as [Hn | Hn]; [left; simpl in Hn; lia | now right].
    + now rewrite lastBefore_cons with (prev := prev).
Qed.

Lemma leadingSpaces_run (line : jsstring) (n : nat) :
  n <= leadingSpaces line ->
  Forall (fun c => only 32 c = true) (firstn n line).
Proof.
  revert n. induction line as [|c line IH]; intros [|n] Hn;
    cbn [firstn]; try constructor.
  - cbn [leadingSpaces] in Hn. unfold only.
    destruct (N.eqb c 32); [reflexivity | lia].
  - cbn [leadingSpaces] in Hn. apply IH.
    destruct (N.eqb c 32); lia.
Qed.

Lemma leadingSpaces_next (line : jsstring) :
  match skipn (leadingSpaces line) line with
  | c :: _ => only 32 c = false
  | [] => True
  end.
Proof.
  induction line as [|c line IH]; cbn [leadingSpaces]; [exact I|].
  unfold only in *. destruct (N.eqb c 32) eqn:E; [exact IH | exact E].
Qed.

Lemma leadingSpaces_le (line : jsstring) : leadingSpaces line <= length line.
Proof.
  induction line as [|c line IH]; cbn [leadingSpaces length]; [lia|].
  destruct (N.eqb c 32); lia.
Qed.

Lemma indent_matches (line : jsstring) :
  1 <= leadingSpaces line ->
  matchHere indentRe None line
  = Some (Nat.min 4 (leadingSpaces line), None).
Proof.
  intros H. set (n := Nat.min 4 (leadingSpaces line)).
  pose proof (leadingSpaces_le line) as Hle.
  unfold matchHere, indentRe.
  cbn [pattern multiline matchSeq matchNode atLineStart].
  rewrite <- (firstn_skipn n line) at 1.
  rewrite quant_greedy_bounded with (res := (skipn n line, None)).
  - rewrite length_skipn. do 2 f_equal. lia.
  - apply leadingSpaces_run. lia.
  - rewrite length_firstn. lia.
  - rewrite length_firstn.
    destruct (Nat.le_gt_cases 4 (leadingSpaces line)) as [H4 | H4].
    + left. lia.
    + right. replace n with (leadingSpaces line) by lia.
      apply leadingSpaces_next.
  - reflexivity.
Qed.

Lemma replaceFrom_later (r : regex) (tmpl : list piece) :
  (forall c s, matchHere r (Some c) s = None) ->
  forall s live c, replaceFrom r tmpl live 0 (Some c) s = s.
Proof.
  intros H. induction s as [|d s IH]; intros live c; cbn [replaceFrom];
    rewrite H; destruct live; cbn; try reflexivity; now rewrite IH.
Qed.

(** A pattern that matches neither at the start nor further on leaves
    the string as it is. *)
Lemma replace_no_match (r : regex) (tmpl : list piece) (s : jsstring) :
  matchHere r None s = None ->
  (forall c s', matchHere r (Some c) s' = None) ->
  replace r tmpl s = s.
Proof.
  intros H0 H. unfold replace. destruct s as [|c s]; cbn [replaceFrom];
    rewrite H0; [reflexivity|]. now rewrite replaceFrom_later.
Qed.

Lemma indent_not_later (c : N) (s : jsstring) :
  matchHere indentRe (Some c) s = None.
Proof. reflexivity. Qed.

Lemma indent_not_here (line : jsstring) :
  leadingSpaces line = 0 -> matchHere indentRe None line = None.
Proof.
  destruct line as [|c line]; [reflexivity|]. cbn [leadingSpaces].
  destruct (N.eqb c 32) eqn:E; [discriminate|]. intros _.
  unfold matchHere, indentRe.
  cbn [pattern multiline matchSeq matchNode atLineStart quant].
  unfold only. now rewrite E.
Qed.

(** [line.replace(/^ {1,4}/, '')] removes the leading spaces of the
    line, four of them at most, and nothing else. *)
Lemma dedent_line (line : jsstring) :
  replace indentRe [] line
  = skipn (Nat.min 4 (leadingSpaces line)) line.
Proof.
  destruct (leadingSpaces line) as [|k] eqn:E.
  - cbn [Nat.min skipn]. apply replace_no_match.
    + now apply indent_not_here.
    + apply indent_not_later.
  - assert (Hm := @indent_matches line ltac:(lia)). rewrite E in Hm.
    destruct (Nat.min 4 (S k)) as [|n] eqn:En; [lia|].
    now rewrite (@replace_first indentRe [] line n None eq_refl Hm).
Qed.

Lemma dedent_indented (line : jsstring) :
  replace indentRe [] (lit "    " ++ line) = line.
Proof.
  rewrite dedent_line.
  assert (H : leadingSpaces (lit "    " ++ line) = 4 + leadingSpaces line)
    by reflexivity.
  rewrite H. now replace (Nat.min 4 (4 + leadingSpaces line)) with 4 by lia.
Qed.

Lemma dispatch_increase ref selection m x :
  dispatch ref (lit "increase-indent") selection m x
  = if truthy x
    then [ExecuteEdits (Some (lit "increase-indent")) selection
            (prefixEachLine (lit "    ") x)]
    else [ExecuteEdits (Some (lit "increase-indent"))
            (mkRange (startLineNumber selection) 1 (startLineNumber selection)
                     (getLineLength m (startLineNumber selection) + 1))
            (lit "    " ++ getLineContent m (startLineNumber selection))].
Proof. reflexivity. Qed.

Lemma dispatch_decrease ref selection m x :
  dispatch ref (lit "decrease-indent") selection m x
  = if truthy x
    then [ExecuteEdits (Some (lit "decrease-indent")) selection
            (join NL (map (fun line => replace indentRe [] line)
                          (split NL x)))]
    else [ExecuteEdits (Some (lit "decrease-indent"))
            (mkRange (startLineNumber selection) 1 (startLineNumber selection)
                     (getLineLength m (startLineNumber selection) + 1))
            (replace indentRe [] (getLineContent m (startLineNumber selection)))].
Proof. reflexivity. Qed.

(** Decrease-indent on a non-empty selection takes the leading spaces
    off every line of the selection, at most four per line, and changes
    nothing else: no other character is removed and no line is joined
    or split. *)
Theorem decrease_indent_removes_up_to_four_spaces (x : jsstring) :
  x <> [] ->
  produces (lit "decrease-indent") x
    (join NL (map (fun line => skipn (Nat.min 4 (leadingSpaces line)) line)
                  (split NL x))).
Proof.
  intros Hx. apply produces_intro. intros.
  rewrite dispatch_decrease, (truthy_nonempty Hx). do 3 f_equal.
  apply map_ext. intros line. apply dedent_line.
Qed.

(** Increase-indent followed by decrease-indent gives a non-empty
    selection back, whatever indentation its lines had. *)
Theorem indent_round_trip (x : jsstring) :
  x <> [] ->
  exists y,
    y <> [] /\
    produces (lit "increase-indent") x y /\
    produces (lit "decrease-indent") y x.
Proof.
  intros Hx. exists (prefixEachLine (lit "    ") x).
  assert (Hy : prefixEachLine (lit "    ") x <> []).
  { unfold prefixEachLine. pose proof (@split_not_nil NL x) as Hne.
    destruct (split NL x) as [|l [|l' ls]]; [congruence | discriminate |].
    cbn [map]. rewrite join_cons by discriminate. discriminate. }
  split; [exact Hy|]. split; apply produces_intro; intros.
  - now rewrite dispatch_increase, (truthy_nonempty Hx).
  - rewrite dispatch_decrease, (truthy_nonempty Hy). do 2 f_equal.
    assert (Hs : split NL (prefixEachLine (lit "    ") x)
                 = map (fun l => lit "    " ++ l) (split NL x)).
    { pose proof (@prefixed_lines_split (fun _ => lit "    ") x) as H.
      cbv zeta in H. unfold mapi in H. rewrite mapiFrom_const in H.
      apply H. intros _. now apply literal_no_NL. }
    rewrite Hs, map_map.
    rewrite (map_ext _ (fun l => l)) by (intros l; apply dedent_indented).
    rewrite map_id. apply join_split.
Qed.

(** ** Whole-line edits: indentation and headings with a cursor *)

Lemma document_cursor_anywhere (above : list jsstring) (line : jsstring)
    (below : list jsstring) (c : nat) :
  Forall lineFree (above ++ line :: below) -> c <= length line ->
  getValueInRange (document above line below) (span above c c) = [].
Proof.
  intros H Hc. rewrite (document_getValueInRange _ _ _ H) by lia.
  now rewrite Nat.sub_diag.
Qed.

(** An edit of the range from column 1 to the line length plus one
    replaces the line and leaves the other lines alone. *)
Lemma whole_line_edit (above : list jsstring) (line : jsstring)
    (below : list jsstring) (w : world) (sel : Range)
    (source : option jsstring) (text : jsstring) :
  Forall lineFree (above ++ line :: below) ->
  holds w (document above line below) sel ->
  startLineNumber sel = S (length above) ->
  documentText
    (editorDoAll
       [ExecuteEdits source
          (mkRange (startLineNumber sel) 1 (startLineNumber sel)
                   (getLineLength (document above line below)
                                  (startLineNumber sel) + 1))
          text] w)
  = Some (document above text below).
Proof.
  intros H Hw Hs. unfold editorDoAll. cbn [fold_left].
  rewrite (holds_edit _ _ _ Hw), Hs. unfold getLineLength.
  rewrite (document_getLineContent _ _ _ H), Nat.add_1_r.
  change (mkRange (S (length above)) 1 (S (length above)) (S (length line)))
    with (span above 0 (length line)).
  rewrite (document_applyEdit _ _ _ _ H) by lia.
  cbn [firstn app]. now rewrite skipn_all, app_nil_r.
Qed.

(** With the cursor in a line, increase-indent puts four spaces in
    front of the line and decrease-indent takes its leading spaces off,
    four at most; the other lines stay. *)
Theorem indent_at_cursor (above : list jsstring) (line : jsstring)
    (below : list jsstring) (c : nat) (w : world) :
  Forall lineFree (above ++ line :: below) -> c <= length line ->
  holds w (document above line below) (span above c c) ->
  documentText (handleMarkdownAction (lit "increase-indent") w)
  = Some (document above (lit "    " ++ line) below) /\
  documentText (handleMarkdownAction (lit "decrease-indent") w)
  = Some (document above
            (skipn (Nat.min 4 (leadingSpaces line)) line) below).
Proof.
  intros H Hc Hw.
  rewrite !(handle_holds _ Hw), (document_cursor_anywhere _ _ _ H Hc).
  rewrite dispatch_increase, dispatch_decrease. cbn [truthy].
  rewrite !(@whole_line_edit _ _ _ _ _ _ _ H Hw eq_refl).
  cbn [span startLineNumber].
  now rewrite (document_getLineContent _ _ _ H), dedent_line.
Qed.






(** ** Clear format on text without markup *)

Lemma plain_facts (c : N) :
  plain c = true ->
  N.eqb c 42 = false /\ N.eqb c 126 = false /\ N.eqb c 96 = false /\
  N.eqb c 91 = false /\ N.eqb c 35 = false /\ N.eqb c 62 = false /\
  N.eqb c 45 = false /\ digit c = false.
Proof.
  unfold plain. rewrite !andb_true_iff, !negb_true_iff. tauto.
Qed.

Lemma replaceFrom_plain (r : regex) (tmpl : list piece) :
  (forall prev s, forallb plain s = true -> matchHere r prev s = None) ->
  forall s live prev,
    forallb plain s = true -> replaceFrom r tmpl live 0 prev s = s.
Proof.
  intros H. induction s as [|c s IH]; intros live prev Hs;
    cbn [replaceFrom]; rewrite (H prev _ Hs); destruct live;
    try reflexivity; cbn [forallb] in Hs;
    apply andb_true_iff in Hs as [_ Hs]; now rewrite IH.
Qed.

Ltac no_match_on_plain :=
  let prev := fresh "prev" in
  let s := fresh "s" in
  let c := fresh "c" in
  let Hs := fresh "Hs" in
  intros prev s Hs; destruct s as [|c s];
  [ destruct prev as [p|]; [destruct (isLineTerminator p) eqn:?|];
    cbv [matchHere pattern multiline matchSeq matchNode atLineStart quant
         boldRe italicRe strikeRe codeRe linkRe headingMarkRe quoteMarkRe
         bulletMarkRe numberMarkRe lazyAny spaces];
    rewrite ?andb_true_l; try reflexivity;
    match goal with H : isLineTerminator _ = _ |- _ => rewrite H end;
    reflexivity
  | cbn [forallb] in Hs; apply andb_true_iff in Hs as [Hs _];
    apply plain_facts in Hs as (H42 & H126 & H96 & H91 & H35 & H62 & H45 & Hd);
    destruct prev as [p|]; [destruct (isLineTerminator p) eqn:?|];
    cbv [matchHere pattern multiline matchSeq matchNode atLineStart quant
         boldRe italicRe strikeRe codeRe linkRe headingMarkRe quoteMarkRe
         bulletMarkRe numberMarkRe lazyAny spaces only star tilde backtick
         hash];
    rewrite ?andb_true_l;
    repeat match goal with H : isLineTerminator _ = _ |- _ => rewrite H end;
    rewrite ?H42, ?H126, ?H96, ?H91, ?H35, ?H62, ?H45, ?Hd;
    reflexivity ].

Lemma bold_plain : forall prev s,
  forallb plain s = true -> matchHere boldRe prev s = None.
Proof. no_match_on_plain. Qed.

Lemma italic_plain : forall prev s,
  forallb plain s = true -> matchHere italicRe prev s = None.
Proof. no_match_on_plain. Qed.

Lemma strike_plain : forall prev s,
  forallb plain s = true -> matchHere strikeRe prev s = None.
Proof. no_match_on_plain. Qed.

Lemma code_plain : forall prev s,
  forallb plain s = true -> matchHere codeRe prev s = None.
Proof. no_match_on_plain. Qed.

Lemma link_plain : forall prev s,
  forallb plain s = true -> matchHere linkRe prev s = None.
Proof. no_match_on_plain. Qed.

Lemma headingMark_plain : forall prev s,
  forallb plain s = true -> matchHere headingMarkRe prev s = None.
Proof. no_match_on_plain. Qed.

Lemma quoteMark_plain : forall prev s,
  forallb plain s = true -> matchHere quoteMarkRe prev s = None.
Proof. no_match_on_plain. Qed.

Lemma bulletMark_plain : forall prev s,
  forallb plain s = true -> matchHere bulletMarkRe prev s = None.
Proof. no_match_on_plain. Qed.

Lemma numberMark_plain : forall prev s,
  forallb plain s = true -> matchHere numberMarkRe prev s = None.
Proof. no_match_on_plain. Qed.

(** Clear-format leaves a selection alone when none of its characters
    can start a pattern of the action: no [*], [~], backtick, [[], [#],
    [>], [-] and no digit.  Letters, spaces, line feeds, underscores and
    the rest of the punctuation pass through unchanged. *)
Theorem clear_format_keeps_plain_text (x : jsstring) :
  forallb plain x = true ->
  clearFormat x = x /\ produces (lit "clear-format") x x.
Proof.
  intros Hx.
  assert (Hc : clearFormat x = x).
  { unfold clearFormat, replace.
    rewrite (@replaceFrom_plain _ _ bold_plain) by exact Hx.
    rewrite (@replaceFrom_plain _ _ italic_plain) by exact Hx.
    rewrite (@replaceFrom_plain _ _ strike_plain) by exact Hx.
    rewrite (@replaceFrom_plain _ _ code_plain) by exact Hx.
    rewrite (@replaceFrom_plain _ _ link_plain) by exact Hx.
    rewrite (@replaceFrom_plain _ _ headingMark_plain) by exact Hx.
    rewrite (@replaceFrom_plain _ _ quoteMark_plain) by exact Hx.
    rewrite (@replaceFrom_plain _ _ bulletMark_plain) by exact Hx.
    now rewrite (@replaceFrom_plain _ _ numberMark_plain) by exact Hx. }
  split; [exact Hc|].
  apply produces_intro. intros. now rewrite dispatch_clear, Hc.
Qed.

(** ** The earlier key bindings *)



End Further.

(** * Further concrete runs *)

Section FurtherRuns.
Import Regex Patterns.

Local Abbreviation run := (handleMarkdownAction untranslated selectInserted).
Local Abbreviation yields := (produces untranslated selectInserted).

Lemma sample_lines_free (line : jsstring) :
  forallb (fun c => negb (N.eqb c NL)) line = true ->
  Forall lineFree (noteAbove ++ line :: noteBelow).
Proof.
  intros H. repeat constructor; try (now apply literal_no_NL).
Qed.

Lemma editing_holds (doc : jsstring) (selection : Range) :
  holds (editing doc selection) doc selection.
Proof. eexists. repeat split. Qed.

Lemma strikethrough_round_trip_witness :
  ~ (startsWith (lit "x") (lit "~~") = true /\
     endsWith (lit "x") (lit "~~") = true) /\
  yields (lit "strikethrough") (lit "x") (lit "~~x~~") /\
  yields (lit "strikethrough") (lit "~~x~~") (lit "x").
Proof.
  assert (H : ~ (startsWith (lit "x") (lit "~~") = true /\
                 endsWith (lit "x") (lit "~~") = true))
    by (intros [H _]; discriminate H).
  split; [exact H|].
  exact (@strikethrough_round_trip untranslated selectInserted (lit "x") H).
Defined.

(** The single asterisk: wrapped to [***] and stripped back. *)
Lemma italic_round_trip_witness :
  ~ (startsWith (lit "*") (lit "*") = true /\
     endsWith (lit "*") (lit "*") = true /\ 1 < length (lit "*")) /\
  yields (lit "italic") (lit "*") (lit "***") /\
  yields (lit "italic") (lit "***") (lit "*").
Proof.
  assert (H : ~ (startsWith (lit "*") (lit "*") = true /\
                 endsWith (lit "*") (lit "*") = true /\
                 1 < length (lit "*")))
    by (intros (_ & _ & H); simpl in H; lia).
  split; [exact H|].
  exact (@italic_round_trip untranslated selectInserted (lit "*") H).
Defined.

Lemma inline_code_round_trip_witness :
  ~ (startsWith (lit "f x") (lit "`") = true /\
     endsWith (lit "f x") (lit "`") = true /\ 1 < length (lit "f x")) /\
  yields (lit "inline-code") (lit "f x") (lit "`f x`") /\
  yields (lit "inline-code") (lit "`f x`") (lit "f x").
Proof.
  assert (H : ~ (startsWith (lit "f x") (lit "`") = true /\
                 endsWith (lit "f x") (lit "`") = true /\
                 1 < length (lit "f x")))
    by (intros (H & _); discriminate H).
  split; [exact H|].
  exact (@inline_code_round_trip untranslated selectInserted (lit "f x") H).
Defined.

Lemma unhandled_action_is_noop_witness :
  ~ In (lit "heading-5") handledActions /\
  run (lit "heading-5") helloSelected = helloSelected.
Proof.
  assert (H : ~ In (lit "heading-5") handledActions)
    by (vm_compute; intuition discriminate).
  split; [exact H|].
  exact (@unhandled_action_is_noop untranslated selectInserted
           (lit "heading-5") helloSelected H).
Defined.

Lemma onDrop_sends_every_file_witness :
  (editorRef someText
   = Some (mkEditor (Some (lit "text")) (Some (mkRange 1 1 1 1)) [] true) /\
   getSelection (mkEditor (Some (lit "text")) (Some (mkRange 1 1 1 1)) [] true)
   = Some (mkRange 1 1 1 1)) /\
  onDrop [bigFile; photo] someText
  = mkWorld (editorRef someText) (isComposing someText) (committed someText)
            true (uploadValue someText) (alerts someText) (console someText)
            (requests someText
             ++ map (fun f => mkRequest f (InsertAt f (mkRange 1 1 1 1))
                                        ConsoleError)
                    [bigFile; photo])
            true.
Proof.
  assert (H1 : editorRef someText
               = Some (mkEditor (Some (lit "text")) (Some (mkRange 1 1 1 1))
                                [] true)) by reflexivity.
  assert (H2 : getSelection (mkEditor (Some (lit "text"))
                                      (Some (mkRange 1 1 1 1)) [] true)
               = Some (mkRange 1 1 1 1)) by reflexivity.
  split; [now split|].
  exact (@onDrop_sends_every_file [bigFile; photo] someText _ _ H1 H2).
Defined.



Lemma size_limit_only_on_button_witness :
  (oversized bigFile = true /\
   editorRef someText
   = Some (mkEditor (Some (lit "text")) (Some (mkRange 1 1 1 1)) [] true) /\
   getSelection (mkEditor (Some (lit "text")) (Some (mkRange 1 1 1 1)) [] true)
   = Some (mkRange 1 1 1 1)) /\
  requests (upChange [bigFile] someText) = requests someText /\
  requests (onDrop [bigFile] someText)
  = requests someText
    ++ [mkRequest bigFile (InsertAt bigFile (mkRange 1 1 1 1)) ConsoleError] /\
  alerts (onDrop [bigFile] someText) = alerts someText /\
  requests (handlePaste selectInserted [bigFile] someText)
  = requests someText
    ++ [mkRequest bigFile (PasteInsert bigFile) ConsoleError] /\
  alerts (handlePaste selectInserted [bigFile] someText) = alerts someText.
Proof.
  assert (H0 : oversized bigFile = true) by reflexivity.
  assert (H1 : editorRef someText
               = Some (mkEditor (Some (lit "text")) (Some (mkRange 1 1 1 1))
                                [] true)) by reflexivity.
  assert (H2 : getSelection (mkEditor (Some (lit "text"))
                                      (Some (mkRange 1 1 1 1)) [] true)
               = Some (mkRange 1 1 1 1)) by reflexivity.
  split; [now repeat split|].
  exact (@size_limit_only_on_button selectInserted bigFile someText _ _
           H0 H1 H2).
Defined.


(** The image reference in the document, at the start of [text]. *)
Example upload_from_button_inserts_image :
  documentText
    (settle untranslated selectInserted insertPhoto uploaded
       (upChange [photo] someText))
  = Some (lit "![photo.png](https://files.example/photo.png)" ++ [NL]
          ++ lit "text") /\
  uploading
    (settle untranslated selectInserted insertPhoto uploaded
       (upChange [photo] someText))
  = false.
Proof. split; vm_compute; reflexivity. Qed.

Lemma failed_upload_keeps_uploading_witness :
  failed offline /\
  alerts (settle untranslated selectInserted insertPhoto offline someText)
  = alerts someText /\
  uploading (settle untranslated selectInserted insertPhoto offline someText)
  = uploading someText /\
  console (settle untranslated selectInserted insertPhoto offline someText)
  = console someText ++ [lit "Failed to fetch"; lit "upload.failed"] /\
  (forall f ed selection,
     editorRef someText = Some ed -> getSelection ed = Some selection ->
     oversized f = false ->
     uploading (settle untranslated selectInserted insertPhoto offline
                  (upChange [f] someText)) = true).
Proof.
  assert (H : failed offline) by exact I.
  split; [exact H|].
  exact (@failed_upload_keeps_uploading untranslated selectInserted
           insertPhoto offline someText H).
Defined.

Lemma idle_bridge_is_in_sync_witness :
  isComposing (deliverAll (composingSoFar ++ [CompositionEnd]) typing)
  = false /\
  last (committed (deliverAll (composingSoFar ++ [CompositionEnd]) typing)) []
  = editorValue (deliverAll (composingSoFar ++ [CompositionEnd]) typing).
Proof.
  assert (H : isComposing
                (deliverAll (composingSoFar ++ [CompositionEnd]) typing)
              = false) by reflexivity.
  split; [exact H|].
  exact (@idle_bridge_is_in_sync composingSoFar CompositionEnd typing H).
Defined.



Lemma link_selects_what_to_type_witness :
  (Forall lineFree
     (noteAbove ++ (lit "see " ++ lit "docs" ++ lit " now") :: noteBelow) /\
   lineFree (orElse (untranslated (lit "link.placeholder")) linkPlaceholder) /\
   holds docsSelected
     (document noteAbove (lit "see " ++ lit "docs" ++ lit " now") noteBelow)
     (span noteAbove 4 8)) /\
  exists ed' selection',
    editorRef (run (lit "link") docsSelected) = Some ed' /\
    getModel ed'
    = Some (document noteAbove
              (lit "see " ++ (lit "[" ++ lit "docs" ++ lit "](url)")
               ++ lit " now") noteBelow) /\
    getSelection ed' = Some selection' /\
    focused ed' = true /\
    getValueInRange
      (document noteAbove
         (lit "see " ++ (lit "[" ++ lit "docs" ++ lit "](url)") ++ lit " now")
         noteBelow) selection'
    = lit "url".
Proof.
  assert (H1 : Forall lineFree
                 (noteAbove ++ (lit "see " ++ lit "docs" ++ lit " now")
                            :: noteBelow))
    by (apply sample_lines_free; reflexivity).
  assert (H2 : lineFree (orElse (untranslated (lit "link.placeholder"))
                                linkPlaceholder))
    by (apply literal_no_NL; reflexivity).
  assert (H3 : holds docsSelected
                 (document noteAbove (lit "see " ++ lit "docs" ++ lit " now")
                           noteBelow) (span noteAbove 4 8))
    by apply editing_holds.
  split; [now repeat split|].
  exact (@link_selects_what_to_type untranslated selectInserted noteAbove
           (lit "see ") (lit "docs") (lit " now") noteBelow docsSelected
           H1 H2 H3).
Defined.



Lemma decrease_indent_removes_up_to_four_spaces_witness :
  twoIndented <> [] /\
  yields (lit "decrease-indent") twoIndented
    (join NL (map (fun line => skipn (Nat.min 4 (leadingSpaces line)) line)
                  (split NL twoIndented))).
Proof.
  assert (H : twoIndented <> []) by discriminate.
  split; [exact H|].
  exact (@decrease_indent_removes_up_to_four_spaces untranslated
           selectInserted twoIndented H).
Defined.

(** Two and five leading spaces become none and one. *)
Example decrease_indent_two_lines :
  documentText
    (run (lit "decrease-indent") (editing twoIndented (wholeText twoIndented)))
  = Some (lit "a" ++ [NL] ++ lit " b").
Proof. vm_compute. reflexivity. Qed.

Lemma indent_round_trip_witness :
  twoIndented <> [] /\
  exists y,
    y <> [] /\
    yields (lit "increase-indent") twoIndented y /\
    yields (lit "decrease-indent") y twoIndented.
Proof.
  assert (H : twoIndented <> []) by discriminate.
  split; [exact H|].
  exact (@indent_round_trip untranslated selectInserted twoIndented H).
Defined.

Lemma indent_at_cursor_witness :
  (Forall lineFree (noteAbove ++ indentedLine :: noteBelow) /\
   2 <= length indentedLine /\
   holds cursorInIndented (document noteAbove indentedLine noteBelow)
         (span noteAbove 2 2)) /\
  documentText (run (lit "increase-indent") cursorInIndented)
  = Some (document noteAbove (lit "    " ++ indentedLine) noteBelow) /\
  documentText (run (lit "decrease-indent") cursorInIndented)
  = Some (document noteAbove
            (skipn (Nat.min 4 (leadingSpaces indentedLine)) indentedLine)
            noteBelow).
Proof.
  assert (H1 : Forall lineFree (noteAbove ++ indentedLine :: noteBelow))
    by (apply sample_lines_free; reflexivity).
  assert (H2 : 2 <= length indentedLine) by (simpl; lia).
  assert (H3 : holds cursorInIndented
                 (document noteAbove indentedLine noteBelow)
                 (span noteAbove 2 2)) by apply editing_holds.
  split; [now repeat split|].
  exact (@indent_at_cursor untranslated selectInserted noteAbove indentedLine
           noteBelow 2 cursorInIndented H1 H2 H3).
Defined.



Lemma clear_format_keeps_plain_text_witness :
  forallb plain plainText = true /\
  clearFormat plainText = plainText /\
  yields (lit "clear-format") plainText plainText.
Proof.
  assert (H : forallb plain plainText = true) by reflexivity.
  split; [exact H|].
  exact (@clear_format_keeps_plain_text untranslated selectInserted
           plainText H).
Defined.


End FurtherRuns.
